(** * Order placement of the restaurant management server

    A shallow embedding of the [POST /api/orders] handler of [server.js]
    together with the part of the MySQL store it talks to, and the
    properties of the order-placement transaction.

    Conventions of the embedding.
    - [DECIMAL(10,2)] columns and the request's money amounts are held as
      [Z], counting hundredths; [INT] columns are [Z]; the ranges and
      lengths of the column types are not enforced. A JavaScript number is
      an IEEE 754 double ([spec_float] of the standard library at 53 bits):
      the product [mapping.quantity_required * item.quantity] is the
      double the runtime computes, it goes into the statement as
      [Number::toString] writes it, and the server reads it as the literal
      it then is.
    - A table with a primary key that the handler addresses by key
      ([inventory], [menu_items]) is a [gmap] from the key to the row; the
      tables the handler only appends to are lists, oldest row first.
    - The handler is a chain of callbacks and awaited promises over one
      connection; here it is a computation in a state-and-exception monad
      over [World], which holds the tables, the open transaction, the
      driver errors still to come and a log of what the handler did to the
      outside (statements sent, mails handed to the transporter).
    - The server opens one connection ([const db = mysql.createConnection])
      and every request uses it. A handler runs uninterrupted between two
      calls on the connection; requests in flight together take turns call
      by call ([serve]), and a handler run through all its calls in a row
      ([run_alone]) is the handler of the monadic reading
      ([post_api_orders]). *)

From stdpp Require Import gmap strings list.
From Stdlib Require Import Floats.SpecFloat.

Open Scope Z_scope.

(** ** Numbers *)

(** *** JavaScript numbers *)

(** A JavaScript number is a double, binary64 of IEEE 754: 53 bits of
    precision, exponents below 1024. The arithmetic is that of the
    standard library's [SpecFloat], rounding to nearest, ties to even. *)
Definition prec : Z := 53.
Definition emax : Z := 1024.

Definition Number : Type := spec_float.

(** The integer [z] as a floating-point datum, not rounded. *)
Definition unrounded (z : Z) : Number :=
  match z with
  | Z0 => S754_zero false
  | Zpos p => S754_finite false p 0
  | Zneg p => S754_finite true p 0
  end.

(** The number of an integer literal of the JSON body: the double nearest
    to it, [Infinity] from 2^1024 on. *)
Definition nearest_integer (z : Z) : Number :=
  binary_normalize prec emax z 0 false.

(** The double nearest to [n / d]. *)
Definition nearest_ratio (n : Z) (d : positive) : Number :=
  SFdiv prec emax (unrounded n) (unrounded (Zpos d)).

(** [mapping.quantity_required * item.quantity]. The driver hands a
    [DECIMAL] column over as its text (['0.20'] for 20 hundredths), which
    [*] converts to the nearest double; [item.quantity] is the number of
    the JSON body; the product is the double nearest to theirs. *)
Definition times (quantity_required quantity : Z) : Number :=
  SFmul prec emax (nearest_ratio quantity_required 100)
                  (nearest_integer quantity).

(** The double nearest to [s x 10^t]. *)
Definition nearest_decimal (s t : Z) : Number :=
  if 0 <=? t then nearest_integer (s * 10 ^ t)
  else nearest_ratio s (Z.to_pos (10 ^ (- t))).

Definition same_number (x y : Number) : bool :=
  match x, y with
  | S754_finite sx mx ex, S754_finite sy my ey =>
      Bool.eqb sx sy && (Zpos mx =? Zpos my) && (ex =? ey)
  | S754_zero sx, S754_zero sy => Bool.eqb sx sy
  | S754_infinity sx, S754_infinity sy => Bool.eqb sx sy
  | _, _ => false
  end.

(** The number of decimal digits of [z >= 1]. *)
Fixpoint digits10 (fuel : nat) (z : Z) : Z :=
  match fuel with
  | O => 0
  | S f => if z <? 10 then 1 else 1 + digits10 f (z / 10)
  end.

(** The least [j' >= j] with [den <= num x 10^j']. *)
Fixpoint zeros10 (fuel : nat) (num den j : Z) : Z :=
  match fuel with
  | O => j
  | S f => if den <=? num * 10 ^ j then j else zeros10 f num den (j + 1)
  end.

(** The [n] with [10^(n-1) <= num / den < 10^n]. *)
Definition magnitude10 (num den : Z) : Z :=
  if den <=? num
  then digits10 (S (Z.to_nat (Z.log2 (num / den)))) (num / den)
  else 1 - zeros10 400 num den 1.

(** Among the decimals [s x 10^(n-k)] next to [num / den] on either side,
    the one that reads back as [x], the nearer one if both do. *)
Definition candidate (x : Number) (num den n k : Z) : option (Z * Z) :=
  let t := n - k in
  let N := if t <=? 0 then num * 10 ^ (- t) else num in
  let D := if t <=? 0 then den else den * 10 ^ t in
  let lo := N / D in
  let r := N mod D in
  let ok_lo := (0 <? lo) && same_number (nearest_decimal lo t) x in
  let ok_hi := same_number (nearest_decimal (lo + 1) t) x in
  if r =? 0 then (if ok_lo then Some (lo, t) else None)
  else
    match ok_lo, ok_hi with
    | true, true =>
        match 2 * r ?= D with
        | Lt => Some (lo, t)
        | Gt => Some (lo + 1, t)
        | Eq => Some (if Z.even lo then lo else lo + 1, t)
        end
    | true, false => Some (lo, t)
    | false, true => Some (lo + 1, t)
    | false, false => None
    end.

(** The first of the candidates with [k], [k + 1], ... digits. *)
Fixpoint shortest (fuel : nat) (x : Number) (num den n k : Z) : Z * Z :=
  match fuel with
  | O => (num / den, 0)
  | S f =>
      match candidate x num den n k with
      | Some d => d
      | None => shortest f x num den n (k + 1)
      end
  end.

(** [Number::toString] on the magnitude of a finite number: the digits [s]
    and the exponent [t] of the decimal [s x 10^t] it writes, which is the
    one with the fewest digits that reads back as the number (seventeen
    always do). *)
Definition digits_of (x : Number) : Z * Z :=
  match x with
  | S754_finite _ m e =>
      let num := if 0 <=? e then Zpos m * 2 ^ e else Zpos m in
      let den := if 0 <=? e then 1 else 2 ^ (- e) in
      shortest 17 (SFabs x) num den (magnitude10 num den) 1
  | _ => (0, 0)
  end.

(** *** Numbers in a statement *)

(** How the server reads a number that the driver wrote into a statement:
    digits with or without a decimal point are an exact [DECIMAL] value
    [s x 10^t]; digits with an exponent are a [DOUBLE]; [NaN] and
    [Infinity] are no numbers but names. *)
Inductive SqlNumber :=
  | SqlDecimal (s t : Z)
  | SqlDouble (x : Number)
  | SqlName (name : string).

(** [Number::toString] writes a decimal without exponent from 10^-6 up to,
    and not including, 10^21. *)
Definition decimal_notation (s t : Z) : bool :=
  if 0 <=? t then s * 10 ^ t <? 10 ^ 21
  else (s <? 10 ^ (21 - t)) && (10 ^ (- t) <=? s * 10 ^ 6).

(** A number bound to a [?]: the driver writes [String(x)] into the
    statement. *)
Definition literal (x : Number) : SqlNumber :=
  match x with
  | S754_zero _ => SqlDecimal 0 0
  | S754_nan => SqlName "NaN"
  | S754_infinity _ => SqlName "Infinity"
  | S754_finite negative _ _ =>
      let '(s, t) := digits_of x in
      if decimal_notation s t
      then SqlDecimal (if negative then - s else s) t
      else SqlDouble x
  end.

(** [N / D] rounded to the nearest integer, halves away from zero: the
    rounding of a value stored into a [DECIMAL] column. *)
Definition round_away (N D : Z) : Z :=
  Z.sgn N * ((2 * Z.abs N + D) / (2 * D)).

(** The decimal [s x 10^t] as a [DECIMAL(10,2)] value, in hundredths. *)
Definition to_hundredths (s t : Z) : Z :=
  if 0 <=? t + 2 then s * 10 ^ (t + 2)
  else round_away s (10 ^ (- (t + 2))).

(** The integer [n] with [x = n x 2^e'], for [e'] at most the exponent of
    [x]. *)
Definition at_exponent (e' : Z) (x : Number) : Z :=
  match x with
  | S754_finite negative m e =>
      (if negative then -1 else 1) * (Zpos m * 2 ^ (e - e'))
  | _ => 0
  end.

Definition common_exponent (x y : Number) : Z :=
  match x, y with
  | S754_finite _ _ ex, S754_finite _ _ ey => Z.min ex ey
  | S754_finite _ _ ex, _ => ex
  | _, S754_finite _ _ ey => ey
  | _, _ => 0
  end.

(** [x <= y], by the values of the two numbers. *)
Definition number_le (x y : Number) : bool :=
  match x, y with
  | S754_nan, _ | _, S754_nan => false
  | S754_infinity sx, S754_infinity sy => implb sy sx
  | S754_infinity sx, _ => sx
  | _, S754_infinity sy => negb sy
  | _, _ =>
      let e := common_exponent x y in
      at_exponent e x <=? at_exponent e y
  end.

(** [quantity >= ?] for a row that holds [c] hundredths. Against an exact
    value the comparison is exact; against a [DOUBLE] both sides are
    compared as doubles. *)
Definition quantity_ge (c : Z) (b : SqlNumber) : bool :=
  match b with
  | SqlDecimal s t =>
      if 0 <=? t + 2 then s * 10 ^ (t + 2) <=? c
      else s <=? c * 10 ^ (- (t + 2))
  | SqlDouble x => number_le x (nearest_ratio c 100)
  | SqlName _ => false
  end.

(** [quantity - ?] for a row that holds [c] hundredths, as the column
    stores it: the exact difference rounded to hundredths, or, for a
    [DOUBLE], the difference of the doubles converted back; [None] when
    that difference is no finite number. *)
Definition quantity_minus (c : Z) (d : SqlNumber) : option Z :=
  match d with
  | SqlDecimal s t =>
      Some (if 0 <=? t + 2 then c - s * 10 ^ (t + 2)
            else round_away (c * 10 ^ (- (t + 2)) - s) (10 ^ (- (t + 2))))
  | SqlDouble x =>
      match SFsub prec emax (nearest_ratio c 100) x with
      | S754_zero _ => Some 0
      | S754_finite negative m e =>
          let '(s, t) := digits_of (S754_finite negative m e) in
          Some (to_hundredths (if negative then - s else s) t)
      | _ => None
      end
  | SqlName _ => None
  end.

(** ** Rows, as the [CREATE TABLE] statements of [createTables] give them *)

(** [status ENUM('pending','preparing','ready','delivered','cancelled')] *)
Inductive order_status :=
  | pending | preparing | ready | delivered | cancelled.

(** [payment_status] of [orders] and [status] of [payments]:
    [ENUM('pending','completed','failed')]. *)
Inductive payment_status :=
  | pay_pending | pay_completed | pay_failed.

Record MenuItem := {
  mi_name : string;
  mi_price : Z;
  mi_category : string;
  mi_available : bool
}.

Record Order := {
  ord_id : Z;
  ord_customer_name : string;
  ord_customer_phone : string;
  ord_customer_email : option string;
  ord_total_amount : Z;
  ord_status : order_status;
  ord_payment_status : payment_status;
  ord_payment_method : option string
}.

Record OrderItem := {
  oi_order_id : Z;
  oi_menu_item_id : Z;
  oi_quantity : Z;
  oi_price : Z
}.

Record InventoryItem := {
  inv_item_name : string;
  inv_quantity : Z;
  inv_unit : string;
  inv_min_quantity : Z;
  inv_cost_per_unit : Z;
  inv_supplier : option string
}.

Record Payment := {
  pay_order_id : Z;
  pay_amount : Z;
  pay_payment_method : string;
  pay_transaction_id : option string;
  pay_status : payment_status
}.

Record MappingRow := {
  map_menu_item_id : Z;
  map_inventory_item_id : Z;
  map_quantity_required : Z
}.

(** The tables a transaction covers. *)
Record Tables := {
  menu_items : gmap Z MenuItem;
  orders : list Order;
  order_items : list OrderItem;
  inventory : gmap Z InventoryItem;
  payments : list Payment;
  menu_inventory_mapping : list MappingRow
}.

(** ** The request *)

(** One entry of [items]: [{menu_item_id, quantity, price}], read here for
    entries that carry three numbers, [menu_item_id] and [quantity]
    integers and [price] an amount in hundredths. No validator looks
    inside the entries, so the three numbers are unconstrained. *)
Record Line := {
  menu_item_id : Z;
  quantity : Z;
  price : Z
}.

(** [req.body], read here for the requests whose fields, where they are
    present, have these JSON types: a string for [customer_name],
    [customer_phone], [customer_email] and [payment_method], a number (in
    hundredths) for [total_amount], an array of entries for [items]. A
    field is [None] when it is missing from the body or [null]. Bodies
    that carry a value of another type in one of these fields (an array
    for [total_amount], say, whose elements the validators would look at
    one by one) are not among the requests read here. *)
Record Body := {
  customer_name : option string;
  customer_phone : option string;
  customer_email : option string;
  items : option (list Line);
  total_amount : option Z;
  payment_method : option string
}.

(** ** What the handler sends out *)

(** The projection [SELECT inventory_item_id, quantity_required]. *)
Record Mapping := {
  inventory_item_id : Z;
  quantity_required : Z
}.

(** The five statements of the handler, each with its bound parameters in
    the order of the [?] placeholders. *)
Inductive Query :=
  | InsertOrder (name phone email : option string) (total : option Z)
                (method : option string)
  | InsertOrderItems (itemsData : list (Z * Z * Z * Z))
  | SelectMappings (menu_item : Z)
  | UpdateInventory (decrement : Number) (id : Z) (bound : Number)
  | InsertPayment (orderId : Z) (amount : option Z) (method : option string).

(** What the driver passes to a query callback as [result] / [results]. *)
Record QueryResult := {
  insertId : Z;
  affectedRows : Z;
  rows : list Mapping
}.

(** The arguments of one [sendEmail] call: the recipient, and the values
    the subject and text templates are filled with. *)
Record Mail := {
  mail_to : string;
  mail_order_id : Z;
  mail_customer_name : option string;
  mail_total_amount : option Z;
  mail_quantities : list Z
}.

Inductive event :=
  | EvBeginTransaction
  | EvQuery (q : Query)
  | EvCommit
  | EvRollback
  | EvSendEmail (m : Mail).

Inductive ResponseBody :=
  | ErrorBody (error : string)
  | CreatedBody (message : string) (orderId : Z).

Record Response := {
  status : Z;
  body : ResponseBody
}.

(** ** The world: one connection to the store *)

(** [db] is what the connection sees now; [txn] holds the tables as they
    were at [START TRANSACTION] while a transaction is open;
    [orders_auto_increment] is the [AUTO_INCREMENT] counter of [orders],
    which a rollback does not take back; [faults] lists, for the calls on
    the connection still to come ([beginTransaction], [query], [commit]),
    the error the driver will report, [None] for a call that goes through;
    [log] is what has been sent out so far, oldest first. *)
Record World := {
  db : Tables;
  txn : option Tables;
  orders_auto_increment : Z;
  faults : list (option string);
  log : list event
}.

(** ** The store: what each statement does to the tables *)

Definition set_orders (t : Tables) (os : list Order) : Tables :=
  {| menu_items := menu_items t; orders := os; order_items := order_items t;
     inventory := inventory t; payments := payments t;
     menu_inventory_mapping := menu_inventory_mapping t |}.

Definition set_order_items (t : Tables) (ois : list OrderItem) : Tables :=
  {| menu_items := menu_items t; orders := orders t; order_items := ois;
     inventory := inventory t; payments := payments t;
     menu_inventory_mapping := menu_inventory_mapping t |}.

Definition set_inventory (t : Tables) (inv : gmap Z InventoryItem) : Tables :=
  {| menu_items := menu_items t; orders := orders t;
     order_items := order_items t; inventory := inv; payments := payments t;
     menu_inventory_mapping := menu_inventory_mapping t |}.

Definition set_payments (t : Tables) (ps : list Payment) : Tables :=
  {| menu_items := menu_items t; orders := orders t;
     order_items := order_items t; inventory := inventory t; payments := ps;
     menu_inventory_mapping := menu_inventory_mapping t |}.

Definition set_quantity (it : InventoryItem) (q : Z) : InventoryItem :=
  {| inv_item_name := inv_item_name it; inv_quantity := q;
     inv_unit := inv_unit it; inv_min_quantity := inv_min_quantity it;
     inv_cost_per_unit := inv_cost_per_unit it;
     inv_supplier := inv_supplier it |}.

(** [FOREIGN KEY (order_id) REFERENCES orders(id)] *)
Definition order_exists (t : Tables) (id : Z) : bool :=
  existsb (fun o => ord_id o =? id) (orders t).

(** [FOREIGN KEY (menu_item_id) REFERENCES menu_items(id)] *)
Definition menu_item_exists (t : Tables) (id : Z) : bool :=
  bool_decide (is_Some (menu_items t !! id)).

Definition order_item_of_row (r : Z * Z * Z * Z) : OrderItem :=
  let '(order_id, menu_item, qty, p) := r in
  {| oi_order_id := order_id; oi_menu_item_id := menu_item;
     oi_quantity := qty; oi_price := p |}.

Definition mapping_of_row (r : MappingRow) : Mapping :=
  {| inventory_item_id := map_inventory_item_id r;
     quantity_required := map_quantity_required r |}.

(** [UPDATE inventory SET quantity = quantity - ? WHERE id = ? AND
    quantity >= ?]: one statement that tests and decrements the row with
    primary key [id]. It fails when a parameter is no number to the
    server or the new quantity is none; else the second component is the
    number of rows matched. *)
Definition update_inventory_row (inv : gmap Z InventoryItem)
    (decrement : Number) (id : Z) (bound : Number)
    : string + (gmap Z InventoryItem * Z) :=
  match literal decrement, literal bound with
  | SqlName name, _ | _, SqlName name =>
      inl ("Unknown column '" +:+ name +:+ "' in 'field list'")
  | d, b =>
      match inv !! id with
      | Some it =>
          if quantity_ge (inv_quantity it) b
          then match quantity_minus (inv_quantity it) d with
               | Some q => inr (<[id := set_quantity it q]> inv, 1)
               | None => inl "DOUBLE value is out of range"
               end
          else inr (inv, 0)
      | None => inr (inv, 0)
      end
  end.

Definition no_rows (insert_id affected : Z) : QueryResult :=
  {| insertId := insert_id; affectedRows := affected; rows := [] |}.

(** A statement run against the tables and the [AUTO_INCREMENT] counter of
    [orders]: the error of a violated [NOT NULL] or [FOREIGN KEY]
    constraint (the statement then changes nothing), or the result and the
    tables after it. Columns left out of an [INSERT] take their [DEFAULT]. *)
Definition run_query (q : Query) (t : Tables) (next_id : Z)
    : string + (QueryResult * Tables * Z) :=
  match q with
  | InsertOrder name phone email total method =>
      match name, phone, total with
      | Some n, Some p, Some a =>
          let o := {| ord_id := next_id; ord_customer_name := n;
                      ord_customer_phone := p; ord_customer_email := email;
                      ord_total_amount := a; ord_status := pending;
                      ord_payment_status := pay_pending;
                      ord_payment_method := method |} in
          inr (no_rows next_id 1, set_orders t (orders t ++ [o]), next_id + 1)
      | None, _, _ => inl "Column 'customer_name' cannot be null"
      | _, None, _ => inl "Column 'customer_phone' cannot be null"
      | _, _, None => inl "Column 'total_amount' cannot be null"
      end
  | InsertOrderItems itemsData =>
      match itemsData with
      | [] => inl "You have an error in your SQL syntax"
      | _ =>
          if forallb (fun '(order_id, menu_item, _, _) =>
                        order_exists t order_id && menu_item_exists t menu_item)
                     itemsData
          then inr (no_rows 0 (Z.of_nat (length itemsData)),
                    set_order_items t
                      (order_items t ++ map order_item_of_row itemsData),
                    next_id)
          else inl "Cannot add or update a child row: a foreign key constraint fails"
      end
  | SelectMappings menu_item =>
      inr ({| insertId := 0; affectedRows := 0;
              rows := map mapping_of_row
                        (filter (fun r => map_menu_item_id r = menu_item)
                                (menu_inventory_mapping t)) |},
           t, next_id)
  | UpdateInventory decrement id bound =>
      match update_inventory_row (inventory t) decrement id bound with
      | inl err => inl err
      | inr (inv, n) => inr (no_rows 0 n, set_inventory t inv, next_id)
      end
  | InsertPayment order_id amount method =>
      match amount, method with
      | Some a, Some m =>
          if order_exists t order_id
          then inr (no_rows 0 1,
                    set_payments t
                      (payments t ++
                       [{| pay_order_id := order_id; pay_amount := a;
                           pay_payment_method := m; pay_transaction_id := None;
                           pay_status := pay_pending |}]),
                    next_id)
          else inl "Cannot add or update a child row: a foreign key constraint fails"
      | None, _ => inl "Column 'amount' cannot be null"
      | _, None => inl "Column 'payment_method' cannot be null"
      end
  end.

(** ** Promises over the connection *)

Inductive outcome (A : Type) :=
  | Resolved (a : A)
  | Rejected (message : string).
Arguments Resolved {A} a.
Arguments Rejected {A} message.

Definition M (A : Type) : Type := World -> outcome A * World.

Definition ret {A} (a : A) : M A := fun w => (Resolved a, w).

Definition bind {A B} (m : M A) (k : A -> M B) : M B :=
  fun w =>
    match m w with
    | (Resolved a, w') => k a w'
    | (Rejected e, w') => (Rejected e, w')
    end.

Notation "'await' x <- m 'in' k" := (bind m (fun x => k))
  (at level 10, x name, m at level 100, k at level 200).

Definition set_db (w : World) (t : Tables) : World :=
  {| db := t; txn := txn w; orders_auto_increment := orders_auto_increment w;
     faults := faults w; log := log w |}.

Definition set_txn (w : World) (s : option Tables) : World :=
  {| db := db w; txn := s; orders_auto_increment := orders_auto_increment w;
     faults := faults w; log := log w |}.

Definition set_auto_increment (w : World) (n : Z) : World :=
  {| db := db w; txn := txn w; orders_auto_increment := n;
     faults := faults w; log := log w |}.

Definition emit (e : event) (w : World) : World :=
  {| db := db w; txn := txn w; orders_auto_increment := orders_auto_increment w;
     faults := faults w; log := log w ++ [e] |}.

(** The error the driver reports for the next call on the connection. *)
Definition next_fault (w : World) : option string * World :=
  match faults w with
  | [] => (None, w)
  | f :: fs =>
      (f, {| db := db w; txn := txn w;
             orders_auto_increment := orders_auto_increment w;
             faults := fs; log := log w |})
  end.

(** [db.beginTransaction(cb)]: the callback's [err]. [START TRANSACTION]
    commits what was open and marks the point a rollback returns to. *)
Definition db_beginTransaction (w : World) : option string * World :=
  match next_fault (emit EvBeginTransaction w) with
  | (Some err, w') => (Some err, w')
  | (None, w') => (None, set_txn w' (Some (db w')))
  end.

(** [db.query(sql, params, cb)]: the callback's [(err, result)]. *)
Definition db_query (q : Query) : M QueryResult :=
  fun w =>
    match next_fault (emit (EvQuery q) w) with
    | (Some err, w') => (Rejected err, w')
    | (None, w') =>
        match run_query q (db w') (orders_auto_increment w') with
        | inl err => (Rejected err, w')
        | inr (result, t, n) =>
            (Resolved result, set_auto_increment (set_db w' t) n)
        end
    end.

(** [db.commit(cb)]: the callback's [err]. *)
Definition db_commit (w : World) : option string * World :=
  match next_fault (emit EvCommit w) with
  | (Some err, w') => (Some err, w')
  | (None, w') => (None, set_txn w' None)
  end.

(** [db.rollback(cb)]: the tables return to where the open transaction
    started. The handler's callbacks take no [err] from it. *)
Definition db_rollback (w : World) : World :=
  let w' := emit EvRollback w in
  match txn w' with
  | Some t => set_txn (set_db w' t) None
  | None => w'
  end.

(** [sendEmail(to, subject, text)]: the mail is handed to the transporter;
    a failure of [transporter.sendMail] is caught inside and only printed,
    so the promise always resolves. *)
Definition sendEmail (m : Mail) : M unit :=
  fun w => (Resolved tt, emit (EvSendEmail m) w).

(** ** The validators of the route *)

(** One entry of [errors.array()]. *)
Record ValidationError := {
  path : string;
  msg : string
}.

(** A failed validator adds one error with the library's default message. *)
Definition invalid_unless (field : string) (ok : bool) : list ValidationError :=
  if ok then [] else [{| path := field; msg := "Invalid value" |}].

Definition notEmpty (v : option string) : bool :=
  match v with
  | Some s => negb (s =? "")%string
  | None => false
  end.

Definition isString (v : option string) : bool :=
  match v with
  | Some _ => true
  | None => false
  end.

(** [isFloat({ min: 0 })] *)
Definition isFloat_min (lo : Z) (v : option Z) : bool :=
  match v with
  | Some a => lo <=? a
  | None => false
  end.

(** [isArray({ min: 1 })] *)
Definition isArray_min {A} (lo : nat) (v : option (list A)) : bool :=
  match v with
  | Some l => (lo <=? length l)%nat
  | None => false
  end.

(** [if (customer_email)]: a string is truthy unless it is empty. *)
Definition truthy (v : option string) : bool :=
  match v with
  | Some s => negb (s =? "")%string
  | None => false
  end.

(** [error.message || 'Failed to create order'] *)
Definition message_or_default (message : string) : string :=
  if (message =? "")%string then "Failed to create order" else message.

Section Handler.

(** [isEmail] of the validator library, on the field's text. *)
Variable isEmail : string -> bool.

(** The validation chains of the route, in the order they are listed;
    [.optional({ nullable: true })] skips the e-mail check when the field
    is [undefined] or [null]. *)
Definition validationResult (b : Body) : list ValidationError :=
  invalid_unless "customer_name" (notEmpty (customer_name b)) ++
  invalid_unless "customer_name" (isString (customer_name b)) ++
  invalid_unless "customer_phone" (notEmpty (customer_phone b)) ++
  invalid_unless "customer_phone" (isString (customer_phone b)) ++
  match customer_email b with
  | Some e => invalid_unless "customer_email" (isEmail e)
  | None => []
  end ++
  invalid_unless "total_amount" (isFloat_min 0 (total_amount b)) ++
  invalid_unless "items" (isArray_min 1 (items b)).

(** ** The transaction *)

(** [items.map(...)], which throws when [items] is not there. *)
Definition items_of (b : Body) : M (list Line) :=
  fun w =>
    match items b with
    | Some l => (Resolved l, w)
    | None =>
        (Rejected "Cannot read properties of undefined (reading 'map')", w)
    end.

Definition itemsData_row (orderId : Z) (item : Line) : Z * Z * Z * Z :=
  (orderId, menu_item_id item, quantity item, price item).

(** The promise around the conditional [UPDATE]: it rejects with a fixed
    message on a driver error and when no row was affected. *)
Definition decrement_inventory (mapping : Mapping) (item : Line) : M unit :=
  fun w =>
    let amount := times (quantity_required mapping) (quantity item) in
    match db_query
            (UpdateInventory amount (inventory_item_id mapping) amount) w with
    | (Rejected _, w') => (Rejected "Insufficient inventory", w')
    | (Resolved result, w') =>
        if affectedRows result =? 0
        then (Rejected "Insufficient inventory", w')
        else (Resolved tt, w')
    end.

(** [for (const mapping of mappings)] *)
Fixpoint for_mappings (item : Line) (mappings : list Mapping) : M unit :=
  match mappings with
  | [] => ret tt
  | mapping :: rest =>
      await _ <- decrement_inventory mapping item in
      for_mappings item rest
  end.

(** [for (const item of items)] *)
Fixpoint for_items (its : list Line) : M unit :=
  match its with
  | [] => ret tt
  | item :: rest =>
      await mappings <- db_query (SelectMappings (menu_item_id item)) in
      await _ <- for_mappings item (rows mappings) in
      for_items rest
  end.

(** The [if (customer_email)] block. *)
Definition notify (b : Body) (orderId : Z) (its : list Line) : M unit :=
  match customer_email b with
  | Some to =>
      if truthy (Some to)
      then sendEmail {| mail_to := to; mail_order_id := orderId;
                        mail_customer_name := customer_name b;
                        mail_total_amount := total_amount b;
                        mail_quantities := map quantity its |}
      else ret tt
  | None => ret tt
  end.

(** The body of the [try] block up to the call of [db.commit]; it
    resolves to [orderId]. *)
Definition try_block (b : Body) : M Z :=
  await orderResult <-
    db_query (InsertOrder (customer_name b) (customer_phone b)
                          (customer_email b) (total_amount b)
                          (payment_method b)) in
  let orderId := insertId orderResult in
  await its <- items_of b in
  let itemsData := map (itemsData_row orderId) its in
  await _ <- db_query (InsertOrderItems itemsData) in
  await _ <- for_items its in
  await _ <- db_query (InsertPayment orderId (total_amount b)
                                     (payment_method b)) in
  await _ <- notify b orderId its in
  ret orderId.

Definition error_response (code : Z) (message : string) : Response :=
  {| status := code; body := ErrorBody message |}.

(** The handler of [POST /api/orders]: the response and the world after
    it. *)
Definition post_api_orders (b : Body) (w : World) : Response * World :=
  match validationResult b with
  | e :: _ => (error_response 400 (msg e), w)
  | [] =>
      match db_beginTransaction w with
      | (Some _, w1) => (error_response 500 "Transaction failed", w1)
      | (None, w1) =>
          match try_block b w1 with
          | (Resolved orderId, w2) =>
              match db_commit w2 with
              | (Some _, w3) =>
                  (error_response 500 "Transaction commit failed",
                   db_rollback w3)
              | (None, w3) =>
                  ({| status := 201;
                      body := CreatedBody "Order created successfully"
                                          orderId |}, w3)
              end
          | (Rejected message, w2) =>
              (error_response 500 (message_or_default message),
               db_rollback w2)
          end
      end
  end.

End Handler.

(** ** Requests in flight on the one connection *)

(** The handler between two of its calls: what it is waiting for, and how
    it goes on with the callback's arguments. JavaScript runs a handler
    without interruption from one call on the connection to the next; at
    each call another request's handler may take its turn, on the same
    [db] connection. *)
Inductive Request :=
  | Responded (r : Response)
  | AwaitBegin (k : option string -> Request)
  | AwaitQuery (q : Query) (k : outcome QueryResult -> Request)
  | AwaitCommit (k : option string -> Request)
  | AwaitRollback (k : Request)
  | AwaitMail (m : Mail) (k : Request).

(** One turn of a handler: its pending call is carried out on the
    connection and its callback runs up to the next call. *)
Definition resume (t : Request) (w : World) : Request * World :=
  match t with
  | Responded r => (Responded r, w)
  | AwaitBegin k => let '(err, w') := db_beginTransaction w in (k err, w')
  | AwaitQuery q k => let '(res, w') := db_query q w in (k res, w')
  | AwaitCommit k => let '(err, w') := db_commit w in (k err, w')
  | AwaitRollback k => (k, db_rollback w)
  | AwaitMail m k => (k, emit (EvSendEmail m) w)
  end.

(** A handler run to its response with no other request in between. *)
Fixpoint run_alone (t : Request) (w : World) : Response * World :=
  match t with
  | Responded r => (r, w)
  | AwaitBegin k => let '(err, w') := db_beginTransaction w in run_alone (k err) w'
  | AwaitQuery q k => let '(res, w') := db_query q w in run_alone (k res) w'
  | AwaitCommit k => let '(err, w') := db_commit w in run_alone (k err) w'
  | AwaitRollback k => run_alone k (db_rollback w)
  | AwaitMail m k => run_alone k (emit (EvSendEmail m) w)
  end.

(** The [catch] block. *)
Definition catch_block (message : string) : Request :=
  AwaitRollback (Responded (error_response 500 (message_or_default message))).

Fixpoint for_mappings_then (item : Line) (mappings : list Mapping)
    (next : Request) : Request :=
  match mappings with
  | [] => next
  | mapping :: rest =>
      let amount := times (quantity_required mapping) (quantity item) in
      AwaitQuery (UpdateInventory amount (inventory_item_id mapping) amount)
        (fun res =>
           match res with
           | Rejected _ => catch_block "Insufficient inventory"
           | Resolved result =>
               if affectedRows result =? 0
               then catch_block "Insufficient inventory"
               else for_mappings_then item rest next
           end)
  end.

Fixpoint for_items_then (its : list Line) (next : Request) : Request :=
  match its with
  | [] => next
  | item :: rest =>
      AwaitQuery (SelectMappings (menu_item_id item))
        (fun res =>
           match res with
           | Rejected message => catch_block message
           | Resolved mappings =>
               for_mappings_then item (rows mappings) (for_items_then rest next)
           end)
  end.

Definition notify_then (b : Body) (orderId : Z) (its : list Line)
    (next : Request) : Request :=
  match customer_email b with
  | Some to =>
      if truthy (Some to)
      then AwaitMail {| mail_to := to; mail_order_id := orderId;
                        mail_customer_name := customer_name b;
                        mail_total_amount := total_amount b;
                        mail_quantities := map quantity its |} next
      else next
  | None => next
  end.

Definition commit_then (orderId : Z) : Request :=
  AwaitCommit
    (fun err =>
       match err with
       | Some _ =>
           AwaitRollback
             (Responded (error_response 500 "Transaction commit failed"))
       | None =>
           Responded {| status := 201;
                        body := CreatedBody "Order created successfully"
                                            orderId |}
       end).

Definition try_block_request (b : Body) : Request :=
  AwaitQuery (InsertOrder (customer_name b) (customer_phone b)
                          (customer_email b) (total_amount b)
                          (payment_method b))
    (fun res =>
       match res with
       | Rejected message => catch_block message
       | Resolved orderResult =>
           let orderId := insertId orderResult in
           match items b with
           | None =>
               catch_block "Cannot read properties of undefined (reading 'map')"
           | Some its =>
               AwaitQuery (InsertOrderItems (map (itemsData_row orderId) its))
                 (fun res =>
                    match res with
                    | Rejected message => catch_block message
                    | Resolved _ =>
                        for_items_then its
                          (AwaitQuery (InsertPayment orderId (total_amount b)
                                                     (payment_method b))
                             (fun res =>
                                match res with
                                | Rejected message => catch_block message
                                | Resolved _ =>
                                    notify_then b orderId its
                                                (commit_then orderId)
                                end))
                    end)
           end
       end).

(** The handler of [POST /api/orders], call by call. *)
Definition post_api_orders_request (isEmail : string -> bool) (b : Body) : Request :=
  match validationResult isEmail b with
  | e :: _ => Responded (error_response 400 (msg e))
  | [] =>
      AwaitBegin
        (fun err =>
           match err with
           | Some _ => Responded (error_response 500 "Transaction failed")
           | None => try_block_request b
           end)
  end.

(** The requests in flight take turns on the connection: [schedule] names,
    turn by turn, the request whose pending call the connection carries
    out next. A turn given to a request that has responded, or to none,
    passes. *)
Fixpoint serve (schedule : list nat) (ts : list Request) (w : World)
    : list Request * World :=
  match schedule with
  | [] => (ts, w)
  | i :: rest =>
      match ts !! i with
      | Some t =>
          let '(t', w') := resume t w in
          serve rest (<[i := t']> ts) w'
      | None => serve rest ts w
      end
  end.

Definition response_of (t : Request) : option Response :=
  match t with
  | Responded r => Some r
  | _ => None
  end.

(** ** Sample data: the rows of [insertSampleData] of the setup script *)

(** A stand-in for the library's e-mail check, for running the handler:
    some text, an [@], some more text. *)
Definition simple_isEmail (s : string) : bool :=
  match String.index 0 "@" s with
  | Some (S n) => (S (S n) <? String.length s)%nat
  | _ => false
  end.

Definition sample_inventory : gmap Z InventoryItem :=
  list_to_map
    [ (1, {| inv_item_name := "Flour"; inv_quantity := 5000; inv_unit := "kg";
             inv_min_quantity := 1000; inv_cost_per_unit := 2000;
             inv_supplier := Some "Local Supplier" |});
      (2, {| inv_item_name := "Mozzarella Cheese"; inv_quantity := 2000;
             inv_unit := "kg"; inv_min_quantity := 500;
             inv_cost_per_unit := 15000; inv_supplier := Some "Dairy Co" |});
      (3, {| inv_item_name := "Tomato"; inv_quantity := 3000; inv_unit := "kg";
             inv_min_quantity := 1000; inv_cost_per_unit := 3000;
             inv_supplier := Some "Farm Fresh" |});
      (4, {| inv_item_name := "Romaine Lettuce"; inv_quantity := 1500;
             inv_unit := "kg"; inv_min_quantity := 500;
             inv_cost_per_unit := 5000; inv_supplier := Some "Farm Fresh" |});
      (5, {| inv_item_name := "Chocolate"; inv_quantity := 1000;
             inv_unit := "kg"; inv_min_quantity := 200;
             inv_cost_per_unit := 20000;
             inv_supplier := Some "Sweet Imports" |});
      (6, {| inv_item_name := "Mango Pulp"; inv_quantity := 2500;
             inv_unit := "liters"; inv_min_quantity := 500;
             inv_cost_per_unit := 10000; inv_supplier := Some "Fruit Co" |}) ].

Definition sample_menu : gmap Z MenuItem :=
  list_to_map
    [ (1, {| mi_name := "Margherita Pizza"; mi_price := 25000;
             mi_category := "main"; mi_available := true |});
      (2, {| mi_name := "Caesar Salad"; mi_price := 15000;
             mi_category := "appetizer"; mi_available := true |});
      (3, {| mi_name := "Chocolate Lava Cake"; mi_price := 12000;
             mi_category := "dessert"; mi_available := true |});
      (4, {| mi_name := "Mango Lassi"; mi_price := 8000;
             mi_category := "beverage"; mi_available := true |}) ].

Definition sample_mapping : list MappingRow :=
  [ {| map_menu_item_id := 1; map_inventory_item_id := 1;
       map_quantity_required := 20 |};
    {| map_menu_item_id := 1; map_inventory_item_id := 2;
       map_quantity_required := 10 |};
    {| map_menu_item_id := 1; map_inventory_item_id := 3;
       map_quantity_required := 10 |};
    {| map_menu_item_id := 2; map_inventory_item_id := 4;
       map_quantity_required := 20 |};
    {| map_menu_item_id := 3; map_inventory_item_id := 5;
       map_quantity_required := 10 |};
    {| map_menu_item_id := 4; map_inventory_item_id := 6;
       map_quantity_required := 30 |} ].

Definition sample_tables : Tables :=
  {| menu_items := sample_menu; orders := []; order_items := [];
     inventory := sample_inventory; payments := [];
     menu_inventory_mapping := sample_mapping |}.

Definition sample_world : World :=
  {| db := sample_tables; txn := None; orders_auto_increment := 1;
     faults := []; log := [] |}.

Definition sample_body : Body :=
  {| customer_name := Some "A"; customer_phone := Some "123";
     customer_email := Some "a@example.org";
     items := Some [ {| menu_item_id := 1; quantity := 2; price := 25000 |} ];
     total_amount := Some 50000; payment_method := Some "cash" |}.

(** The request of the specification's scenario with another total. *)
Definition set_total (b : Body) (total : option Z) : Body :=
  {| customer_name := customer_name b; customer_phone := customer_phone b;
     customer_email := customer_email b; items := items b;
     total_amount := total; payment_method := payment_method b |}.

Definition set_items (b : Body) (its : option (list Line)) : Body :=
  {| customer_name := customer_name b; customer_phone := customer_phone b;
     customer_email := customer_email b; items := its;
     total_amount := total_amount b; payment_method := payment_method b |}.

(** A request whose only line has a negative quantity and a negative
    price. *)
Definition negative_line_body : Body :=
  set_items sample_body
    (Some [ {| menu_item_id := 1; quantity := -2; price := -100 |} ]).


Definition with_stock (inv : gmap Z InventoryItem) (id q : Z)
    : gmap Z InventoryItem :=
  match inv !! id with
  | Some it => <[id := set_quantity it q]> inv
  | None => inv
  end.

(** The sample store with 0.3 kg of flour left (item 1). *)
Definition flour_short_world : World :=
  set_db sample_world
    (set_inventory sample_tables (with_stock sample_inventory 1 30)).

(** The sample store with 0.1 kg of cheese left (item 2). *)
Definition cheese_short_world : World :=
  set_db sample_world
    (set_inventory sample_tables (with_stock sample_inventory 2 10)).

(** The sample store on a connection that is lost at the ninth call, which
    for [sample_body] is the commit. *)
Definition commit_failing_world : World :=
  {| db := sample_tables; txn := None; orders_auto_increment := 1;
     faults := replicate 8 None ++ [Some "Connection lost"%string];
     log := [] |}.

(** The sample store with 0.4 kg of flour left: what one order of two
    pizzas takes, and no more. *)
Definition last_flour_world : World :=
  set_db sample_world
    (set_inventory sample_tables (with_stock sample_inventory 1 40)).

(** Two requests taking turns from the start, the first one first, for as
    long as either has a call pending. *)
Definition alternating : list nat :=
  [0; 1; 0; 1; 0; 1; 0; 1; 0; 1; 0; 1; 0; 0; 0]%nat.

(** The sample store with 0.6 kg of flour left: what three pizzas take. *)
Definition flour_for_three_world : World :=
  set_db sample_world
    (set_inventory sample_tables (with_stock sample_inventory 1 60)).

(** The sample store with 0.1 kg of tomato left (item 3). *)
Definition tomato_short_world : World :=
  set_db sample_world
    (set_inventory sample_tables (with_stock sample_inventory 3 10)).

(** The request of the scenario for three pizzas. *)
Definition three_pizzas_body : Body :=
  set_total
    (set_items sample_body
       (Some [ {| menu_item_id := 1; quantity := 3; price := 25000 |} ]))
    (Some 75000).

(** A request for one Caesar salad, with and without an e-mail address. *)
Definition salad_mail_body : Body :=
  {| customer_name := Some "B"; customer_phone := Some "456";
     customer_email := Some "b@example.org";
     items := Some [ {| menu_item_id := 2; quantity := 1; price := 15000 |} ];
     total_amount := Some 15000; payment_method := Some "card" |}.

Definition salad_body : Body :=
  {| customer_name := Some "B"; customer_phone := Some "456";
     customer_email := None;
     items := Some [ {| menu_item_id := 2; quantity := 1; price := 15000 |} ];
     total_amount := Some 15000; payment_method := Some "card" |}.

(** Two requests taking turns from the start, the first one first, until
    both have responded. *)
Definition turn_about : list nat :=
  [0; 1; 0; 1; 0; 1; 0; 1; 0; 1; 0; 1; 0; 1; 0; 1]%nat.

(** The sample store after a first order, of one salad, and with a dish
    that has just been added to the menu and has no recipe yet. *)
Definition later_world : World :=
  {| db :=
       {| menu_items :=
            <[5 := {| mi_name := "Garlic Bread"; mi_price := 9000;
                      mi_category := "appetizer"; mi_available := true |}]>
              sample_menu;
          orders :=
            [ {| ord_id := 1; ord_customer_name := "B";
                 ord_customer_phone := "456"; ord_customer_email := None;
                 ord_total_amount := 15000; ord_status := pending;
                 ord_payment_status := pay_pending;
                 ord_payment_method := Some "card" |} ];
          order_items :=
            [ {| oi_order_id := 1; oi_menu_item_id := 2; oi_quantity := 1;
                 oi_price := 15000 |} ];
          inventory := with_stock sample_inventory 4 1480;
          payments :=
            [ {| pay_order_id := 1; pay_amount := 15000;
                 pay_payment_method := "card"; pay_transaction_id := None;
                 pay_status := pay_pending |} ];
          menu_inventory_mapping := sample_mapping |};
     txn := None; orders_auto_increment := 2; faults := []; log := [] |}.

(** ** The deduction loop as a function of the inventory *)

(** The rows the lookup of a line's mappings returns. *)
Definition mappings_for (table : list MappingRow) (menu_item : Z)
    : list Mapping :=
  map mapping_of_row (filter (fun r => map_menu_item_id r = menu_item) table).

(** The conditional update with [amount] as decrement and as bound: the
    inventory after it when it affects a row, [None] when it affects none
    or fails. *)
Definition conditional_decrement (inv : gmap Z InventoryItem) (id : Z)
    (amount : Number) : option (gmap Z InventoryItem) :=
  match update_inventory_row inv amount id amount with
  | inr (inv', n) => if n =? 0 then None else Some inv'
  | inl _ => None
  end.

(** The updates of one requested line, mapping after mapping; the first
    one that affects no row ends it. *)
Fixpoint deduct_line (line : Line) (mappings : list Mapping)
    (inv : gmap Z InventoryItem) : option (gmap Z InventoryItem) :=
  match mappings with
  | [] => Some inv
  | m :: rest =>
      match conditional_decrement inv (inventory_item_id m)
                                  (times (quantity_required m)
                                         (quantity line)) with
      | Some inv' => deduct_line line rest inv'
      | None => None
      end
  end.

(** The requested lines, in the order of the request; the first line that
    cannot be served ends it. *)
Fixpoint deduct_lines (table : list MappingRow) (lines : list Line)
    (inv : gmap Z InventoryItem) : option (gmap Z InventoryItem) :=
  match lines with
  | [] => Some inv
  | line :: rest =>
      match deduct_line line (mappings_for table (menu_item_id line)) inv with
      | Some inv' => deduct_lines table rest inv'
      | None => None
      end
  end.

(** The statements the loop sends for one line's mappings, up to and
    including the first update that affects no row. *)
Fixpoint line_queries (line : Line) (mappings : list Mapping)
    (inv : gmap Z InventoryItem) : list Query :=
  match mappings with
  | [] => []
  | m :: rest =>
      let amount := times (quantity_required m) (quantity line) in
      UpdateInventory amount (inventory_item_id m) amount ::
      match conditional_decrement inv (inventory_item_id m) amount with
      | Some inv' => line_queries line rest inv'
      | None => []
      end
  end.

Fixpoint deduction_queries (table : list MappingRow) (lines : list Line)
    (inv : gmap Z InventoryItem) : list Query :=
  match lines with
  | [] => []
  | line :: rest =>
      let mappings := mappings_for table (menu_item_id line) in
      SelectMappings (menu_item_id line) ::
      line_queries line mappings inv ++
      match deduct_line line mappings inv with
      | Some inv' => deduction_queries table rest inv'
      | None => []
      end
  end.

(** The ingredient at which the loop stops: the inventory item of the
    first update that affects no row. *)
Fixpoint exhausted_in_line (line : Line) (mappings : list Mapping)
    (inv : gmap Z InventoryItem) : option Z :=
  match mappings with
  | [] => None
  | m :: rest =>
      match conditional_decrement inv (inventory_item_id m)
                                  (times (quantity_required m)
                                         (quantity line)) with
      | Some inv' => exhausted_in_line line rest inv'
      | None => Some (inventory_item_id m)
      end
  end.

Fixpoint first_exhausted (table : list MappingRow) (lines : list Line)
    (inv : gmap Z InventoryItem) : option Z :=
  match lines with
  | [] => None
  | line :: rest =>
      let mappings := mappings_for table (menu_item_id line) in
      match deduct_line line mappings inv with
      | Some inv' => first_exhausted table rest inv'
      | None => exhausted_in_line line mappings inv
      end
  end.

(** ** The deduction step, as the specification words it *)

(** "attempt to decrement the referenced InventoryItem's quantity by
    (mapping.quantity_required x line.quantity), conditioned on current
    quantity being at least that amount": [None] when there is no such row
    or it holds less than [amount], both in hundredths. *)
Definition specified_decrement (inv : gmap Z InventoryItem) (id amount : Z)
    : option (gmap Z InventoryItem) :=
  match inv !! id with
  | Some it =>
      if decide (amount <= inv_quantity it)
      then Some (<[id := set_quantity it (inv_quantity it - amount)]> inv)
      else None
  | None => None
  end.

(** "For each requested line, look up all MenuInventoryMapping rows for
    that menu item; for each mapping, attempt to decrement" *)
Fixpoint specified_line (line : Line) (mappings : list Mapping)
    (inv : gmap Z InventoryItem) : option (gmap Z InventoryItem) :=
  match mappings with
  | [] => Some inv
  | m :: rest =>
      match specified_decrement inv (inventory_item_id m)
                                (quantity_required m * quantity line) with
      | Some inv' => specified_line line rest inv'
      | None => None
      end
  end.

(** "inventory lines are processed in the same order the menu items were
    listed in the request; first insufficient-stock line encountered
    aborts immediately" *)
Fixpoint specified_lines (table : list MappingRow) (lines : list Line)
    (inv : gmap Z InventoryItem) : option (gmap Z InventoryItem) :=
  match lines with
  | [] => Some inv
  | line :: rest =>
      match specified_line line (mappings_for table (menu_item_id line))
                           inv with
      | Some inv' => specified_lines table rest inv'
      | None => None
      end
  end.

(** ** The input contract, as the specification words it *)

(** "each with a menu_item reference, a positive integer quantity, and a
    non-negative unit price" *)
Definition line_in_contract (l : Line) : bool :=
  (0 <? quantity l) && (0 <=? price l).

(** ** Demand on an ingredient *)

(** What one requested line asks of inventory item [id]: the sum of
    quantity_required x quantity over the line's mappings onto [id], in
    hundredths. *)
Definition line_demand (line : Line) (mappings : list Mapping) (id : Z) : Z :=
  foldr (fun m acc =>
           (if decide (inventory_item_id m = id)
            then quantity_required m * quantity line else 0) + acc)
        0 mappings.

(** What the whole request asks of inventory item [id]. *)
Definition demand (table : list MappingRow) (lines : list Line) (id : Z) : Z :=
  foldr (fun l acc =>
           line_demand l (mappings_for table (menu_item_id l)) id + acc)
        0 lines.

(** The number [x], as the statement carries it, is an exact value within
    half a hundredth of [p] hundredths. *)
Definition carries (x : Number) (p : Z) : bool :=
  match literal x with
  | SqlDecimal s t =>
      if 0 <=? t + 2 then s * 10 ^ (t + 2) =? p
      else 2 * Z.abs (s - p * 10 ^ (- (t + 2))) <? 10 ^ (- (t + 2))
  | _ => false
  end.

(** Every product the loop computes for these lines is, as its statement
    carries it, within half a hundredth of the product of the two
    decimals. *)
Definition products_carried (table : list MappingRow) (lines : list Line)
    : bool :=
  forallb (fun l =>
             forallb (fun m =>
                        carries (times (quantity_required m) (quantity l))
                                (quantity_required m * quantity l))
                     (mappings_for table (menu_item_id l)))
          lines.

(** ** Money totals *)




(** ** Shapes of stores *)

(** Every stored quantity is non-negative. *)
Definition inventory_nonneg (inv : gmap Z InventoryItem) : Prop :=
  forall id it, inv !! id = Some it -> 0 <= inv_quantity it.

(** Going from [inv] to [inv'], a row either stays what it was or holds a
    non-negative quantity. *)
Definition no_new_negative (inv inv' : gmap Z InventoryItem) : Prop :=
  forall id it', inv' !! id = Some it' ->
    inv !! id = Some it' \/ 0 <= inv_quantity it'.


(** Every requested line names a row of [menu_items]. *)
Definition lines_on_menu (t : Tables) (its : list Line) : bool :=
  forallb (fun l => menu_item_exists t (menu_item_id l)) its.

(** A statement that cannot take a quantity below zero: an inventory
    update whose decrement is the bound of its guard, or any other
    statement of the handler. *)
Definition guarded_query (q : Query) : Prop :=
  match q with
  | UpdateInventory decrement _ bound => decrement = bound
  | _ => True
  end.

(** A request all of whose statements, however it goes on, are guarded. *)
Inductive guarded : Request -> Prop :=
  | guarded_responded r : guarded (Responded r)
  | guarded_begin k : (forall err, guarded (k err)) -> guarded (AwaitBegin k)
  | guarded_query_then q k :
      guarded_query q -> (forall res, guarded (k res)) ->
      guarded (AwaitQuery q k)
  | guarded_commit k : (forall err, guarded (k err)) -> guarded (AwaitCommit k)
  | guarded_rollback k : guarded k -> guarded (AwaitRollback k)
  | guarded_mail m k : guarded k -> guarded (AwaitMail m k).

(** Relative to the inventory [inv0], neither the tables the connection
    sees nor the tables a rollback would return to hold a new negative
    quantity. *)
Definition stock_safe (inv0 : gmap Z InventoryItem) (w : World) : Prop :=
  no_new_negative inv0 (inventory (db w)) /\
  forall t, txn w = Some t -> no_new_negative inv0 (inventory t).

(** Two tables that differ at most in [inventory]. *)
Definition same_but_inventory (t t' : Tables) : Prop :=
  t' = set_inventory t (inventory t').

(** ** What a placed order leaves in the store *)

(** The [orders] row of a placed order: [status] and [payment_status] take
    their column defaults. *)
Definition order_row (orderId : Z) (name phone : string)
    (email : option string) (total : Z) (method : option string) : Order :=
  {| ord_id := orderId; ord_customer_name := name;
     ord_customer_phone := phone; ord_customer_email := email;
     ord_total_amount := total; ord_status := pending;
     ord_payment_status := pay_pending; ord_payment_method := method |}.

(** The [order_items] row of one requested line. *)
Definition order_item_row (orderId : Z) (l : Line) : OrderItem :=
  {| oi_order_id := orderId; oi_menu_item_id := menu_item_id l;
     oi_quantity := quantity l; oi_price := price l |}.

(** The [payments] row of a placed order. *)
Definition payment_row (orderId total : Z) (method : string) : Payment :=
  {| pay_order_id := orderId; pay_amount := total;
     pay_payment_method := method; pay_transaction_id := None;
     pay_status := pay_pending |}.

Definition confirmation_mail (b : Body) (orderId : Z) (its : list Line)
    (to : string) : Mail :=
  {| mail_to := to; mail_order_id := orderId;
     mail_customer_name := customer_name b;
     mail_total_amount := total_amount b;
     mail_quantities := map quantity its |}.

(** The mails of the [if (customer_email)] block. *)
Definition mails_of (b : Body) (orderId : Z) (its : list Line) : list event :=
  match customer_email b with
  | Some to =>
      if truthy (Some to)
      then [EvSendEmail (confirmation_mail b orderId its to)]
      else []
  | None => []
  end.

(** [w'] is [w] after order [orderId] was placed for [b]: one row more in
    [orders], one per requested line in [order_items], one in [payments],
    and the inventory after the deductions. *)
Definition placed (b : Body) (orderId : Z) (w w' : World) : Prop :=
  exists name phone total method its,
    customer_name b = Some name /\ customer_phone b = Some phone /\
    total_amount b = Some total /\ payment_method b = Some method /\
    items b = Some its /\
    orderId = orders_auto_increment w /\
    menu_items (db w') = menu_items (db w) /\
    menu_inventory_mapping (db w') = menu_inventory_mapping (db w) /\
    orders (db w') =
      orders (db w) ++
      [order_row orderId name phone (customer_email b) total (Some method)] /\
    order_items (db w') =
      order_items (db w) ++ map (order_item_row orderId) its /\
    deduct_lines (menu_inventory_mapping (db w)) its (inventory (db w))
      = Some (inventory (db w')) /\
    payments (db w') = payments (db w) ++ [payment_row orderId total method].

(** ** The other routes that write to the store *)

(** What [res.json] sends on these routes, with the status of
    [res.status] (200 when the handler sets none). *)
Inductive Json :=
  | JsonError (error : string)
  | JsonMessage (message : string).

Record Reply := {
  code : Z;
  json : Json
}.

Definition reply_error (c : Z) (error : string) : Reply :=
  {| code := c; json := JsonError error |}.

Definition reply_message (message : string) : Reply :=
  {| code := 200; json := JsonMessage message |}.

(** *** Access control *)

(** The space character, code 32. *)
Definition space : Ascii.ascii := Ascii.ascii_of_nat 32.

(** [s.split(' ')]: the pieces of [s] between single spaces; two spaces in
    a row enclose an empty piece. *)
Fixpoint split_spaces (s : string) : list string :=
  match s with
  | EmptyString => [EmptyString]
  | String c rest =>
      if Ascii.eqb c space
      then EmptyString :: split_spaces rest
      else match split_spaces rest with
           | piece :: pieces => String c piece :: pieces
           | [] => [String c EmptyString]
           end
  end.

(** [s] holds a space. *)
Fixpoint has_space (s : string) : bool :=
  match s with
  | EmptyString => false
  | String c rest => Ascii.eqb c space || has_space rest
  end.

(** [authHeader && authHeader.split(' ')[1]], [None] standing for
    [undefined] and for the empty header. *)
Definition bearer_token (authorization : option string) : option string :=
  match authorization with
  | None => None
  | Some h => if (h =? "")%string then None else split_spaces h !! 1%nat
  end.

(** The payload [jwt.sign] puts into a token at login:
    [{ userId, username, role }]. *)
Record User := {
  user_id : Z;
  user_name : string;
  user_role : option string
}.

Section Access.

(** [jwt.verify] with the server's secret: the payload of a token it
    accepts, [None] when its callback gets an [err]. *)
Variable verify : string -> option User.

(** The middleware [authenticateToken]: the response it ends the request
    with, or the user it puts into [req.user] before calling [next]. *)
Definition authenticateToken (authorization : option string) : Reply + User :=
  match bearer_token authorization with
  | None => inl (reply_error 401 "Access token required")
  | Some token =>
      if (token =? "")%string
      then inl (reply_error 401 "Access token required")
      else match verify token with
           | None => inl (reply_error 403 "Invalid token")
           | Some user => inr user
           end
  end.

(** The middleware [restrictTo(...roles)]: the response it ends the
    request with, or [None] when it calls [next]. *)
Definition restrictTo (roles : list string) (user : User) : option Reply :=
  match user_role user with
  | Some r =>
      if bool_decide (r ∈ roles) then None
      else Some (reply_error 403 "Access denied")
  | None => Some (reply_error 403 "Access denied")
  end.

(** A route behind [authenticateToken]. *)
Definition authenticated (authorization : option string)
    (handler : User -> World -> Reply * World) (w : World) : Reply * World :=
  match authenticateToken authorization with
  | inl r => (r, w)
  | inr user => handler user w
  end.

(** A handler behind [restrictTo(...roles)]. *)
Definition restricted (roles : list string)
    (handler : World -> Reply * World) (user : User) (w : World)
    : Reply * World :=
  match restrictTo roles user with
  | Some r => (r, w)
  | None => handler w
  end.

End Access.

(** *** Statements *)

Definition set_menu_items (t : Tables) (m : gmap Z MenuItem) : Tables :=
  {| menu_items := m; orders := orders t; order_items := order_items t;
     inventory := inventory t; payments := payments t;
     menu_inventory_mapping := menu_inventory_mapping t |}.

Definition set_status (o : Order) (st : order_status) : Order :=
  {| ord_id := ord_id o; ord_customer_name := ord_customer_name o;
     ord_customer_phone := ord_customer_phone o;
     ord_customer_email := ord_customer_email o;
     ord_total_amount := ord_total_amount o; ord_status := st;
     ord_payment_status := ord_payment_status o;
     ord_payment_method := ord_payment_method o |}.

Definition set_payment_status (o : Order) (st : payment_status) : Order :=
  {| ord_id := ord_id o; ord_customer_name := ord_customer_name o;
     ord_customer_phone := ord_customer_phone o;
     ord_customer_email := ord_customer_email o;
     ord_total_amount := ord_total_amount o; ord_status := ord_status o;
     ord_payment_status := st;
     ord_payment_method := ord_payment_method o |}.

Definition set_transaction (p : Payment) (transaction_id : option string)
    (st : payment_status) : Payment :=
  {| pay_order_id := pay_order_id p; pay_amount := pay_amount p;
     pay_payment_method := pay_payment_method p;
     pay_transaction_id := transaction_id; pay_status := st |}.

(** The statements of the routes below, with their bound parameters. A
    path parameter [:id] is the number the store reads from it; a status
    is the value of the [ENUM] column that its string names. *)
Inductive Statement :=
  | UpdateOrderStatus (st : order_status) (id : Z)
  | DeleteMenuItem (id : Z)
  | DeleteInventoryItem (id : Z)
  | UpdatePayment (transaction_id : option string) (st : payment_status)
                  (order_id : Z)
  | UpdateOrderPaymentStatus (st : payment_status) (id : Z).

(** A row of [order_items] or of [menu_inventory_mapping] refers to menu
    item [id]; neither foreign key says [ON DELETE], so such a menu item
    cannot be deleted. *)
Definition menu_item_referenced (t : Tables) (id : Z) : bool :=
  existsb (fun oi => oi_menu_item_id oi =? id) (order_items t) ||
  existsb (fun r => map_menu_item_id r =? id) (menu_inventory_mapping t).

(** A row of [menu_inventory_mapping] refers to inventory item [id]. *)
Definition inventory_item_referenced (t : Tables) (id : Z) : bool :=
  existsb (fun r => map_inventory_item_id r =? id) (menu_inventory_mapping t).

(** A statement run against the tables: the error of a violated foreign
    key (the statement then changes nothing) or the tables after it. An
    [UPDATE] or [DELETE] whose [WHERE] matches no row changes nothing and
    is no error. *)
Definition run_statement (s : Statement) (t : Tables) : string + Tables :=
  match s with
  | UpdateOrderStatus st id =>
      inr (set_orders t
             (map (fun o => if ord_id o =? id then set_status o st else o)
                  (orders t)))
  | DeleteMenuItem id =>
      match menu_items t !! id with
      | Some _ =>
          if menu_item_referenced t id
          then inl "Cannot delete or update a parent row: a foreign key constraint fails"
          else inr (set_menu_items t (delete id (menu_items t)))
      | None => inr t
      end
  | DeleteInventoryItem id =>
      match inventory t !! id with
      | Some _ =>
          if inventory_item_referenced t id
          then inl "Cannot delete or update a parent row: a foreign key constraint fails"
          else inr (set_inventory t (delete id (inventory t)))
      | None => inr t
      end
  | UpdatePayment transaction_id st order_id =>
      inr (set_payments t
             (map (fun p => if pay_order_id p =? order_id
                            then set_transaction p transaction_id st else p)
                  (payments t)))
  | UpdateOrderPaymentStatus st id =>
      inr (set_orders t
             (map (fun o => if ord_id o =? id
                            then set_payment_status o st else o)
                  (orders t)))
  end.

(** [db.query(sql, params, cb)] for these statements: the callback's
    [err]. (The [log] of the world keeps the calls of the order handler
    only.) *)
Definition db_execute (s : Statement) (w : World) : option string * World :=
  match next_fault w with
  | (Some err, w') => (Some err, w')
  | (None, w') =>
      match run_statement s (db w') with
      | inl err => (Some err, w')
      | inr t => (None, set_db w' t)
      end
  end.

(** *** Handlers *)

(** [isIn(['pending', 'preparing', 'ready', 'delivered', 'cancelled'])] on
    the body's [status]: the column value a listed string names, [None]
    for a missing field and for every other value. *)
Definition order_status_of (v : option string) : option order_status :=
  match v with
  | Some s =>
      if (s =? "pending")%string then Some pending
      else if (s =? "preparing")%string then Some preparing
      else if (s =? "ready")%string then Some ready
      else if (s =? "delivered")%string then Some delivered
      else if (s =? "cancelled")%string then Some cancelled
      else None
  | None => None
  end.

(** The handler of [PUT /api/orders/:id/status]. *)
Definition put_order_status (id : Z) (status : option string) (w : World)
    : Reply * World :=
  match order_status_of status with
  | None => (reply_error 400 "Invalid value", w)
  | Some st =>
      match db_execute (UpdateOrderStatus st id) w with
      | (Some _, w') => (reply_error 500 "Failed to update order status", w')
      | (None, w') => (reply_message "Order status updated successfully", w')
      end
  end.

(** The handler of [DELETE /api/menu/:id]. *)
Definition delete_menu_item (id : Z) (w : World) : Reply * World :=
  match db_execute (DeleteMenuItem id) w with
  | (Some _, w') => (reply_error 500 "Failed to delete menu item", w')
  | (None, w') => (reply_message "Menu item deleted successfully", w')
  end.

(** The handler of [DELETE /api/inventory/:id]. *)
Definition delete_inventory_item (id : Z) (w : World) : Reply * World :=
  match db_execute (DeleteInventoryItem id) w with
  | (Some _, w') => (reply_error 500 "Failed to delete inventory item", w')
  | (None, w') => (reply_message "Inventory item deleted successfully", w')
  end.


(** *** Routes *)

(** [restrictTo('admin', 'staff')] *)
Definition admin_and_staff : list string := ["admin"; "staff"]%string.

Section Routes.

Variable verify : string -> option User.

Definition put_api_orders_status (authorization : option string) (id : Z)
    (status : option string) : World -> Reply * World :=
  authenticated verify authorization
    (restricted admin_and_staff (put_order_status id status)).

Definition delete_api_menu (authorization : option string) (id : Z)
    : World -> Reply * World :=
  authenticated verify authorization
    (restricted admin_and_staff (delete_menu_item id)).

Definition delete_api_inventory (authorization : option string) (id : Z)
    : World -> Reply * World :=
  authenticated verify authorization
    (restricted admin_and_staff (delete_inventory_item id)).


End Routes.

(** The header carries a token that verifies to a user whose role is
    admin or staff. *)
Definition staff_token (verify : string -> option User)
    (authorization : option string) : bool :=
  match authenticateToken verify authorization with
  | inr user =>
      match user_role user with
      | Some r => bool_decide (r ∈ admin_and_staff)
      | None => false
      end
  | inl _ => false
  end.


(** A verifier for running the routes: it knows three tokens. *)
Definition sample_verify (token : string) : option User :=
  if (token =? "t-admin")%string
  then Some {| user_id := 1; user_name := "admin"; user_role := Some "admin" |}
  else if (token =? "t-staff")%string
  then Some {| user_id := 2; user_name := "sam"; user_role := Some "staff" |}
  else if (token =? "t-customer")%string
  then Some {| user_id := 3; user_name := "carol";
               user_role := Some "customer" |}
  else None.

(** ** Mails of a log *)

(** The mails handed to the transporter, oldest first. *)
Definition mails_in (l : list event) : list Mail :=
  omap (fun e => match e with EvSendEmail m => Some m | _ => None end) l.

(** * Properties *)

(** ** Numbers in the conditional update *)

Lemma round_away_nonneg N D : 0 <= N -> 0 < D -> 0 <= round_away N D.
Proof.
  intros HN HD. unfold round_away.
  apply Z.mul_nonneg_nonneg; [lia|]. apply Z.div_pos; lia.
Qed.

(** Rounding keeps the sign it is given. *)
Lemma binary_round_aux_sign s m e l :
  match binary_round_aux prec emax s m e l with
  | S754_zero s' | S754_infinity s' | S754_finite s' _ _ => s' = s
  | S754_nan => True
  end.
Proof.
  unfold binary_round_aux.
  destruct (shr_fexp prec emax m e l) as [mrs' e'].
  destruct (shr_fexp prec emax _ e' loc_Exact) as [mrs'' e''].
  destruct (shr_m mrs''); auto.
  destruct (e'' <=? _); reflexivity.
Qed.

Lemma binary_normalize_sign n e :
  0 <= n ->
  match binary_normalize prec emax n e false with
  | S754_zero s | S754_infinity s | S754_finite s _ _ => s = false
  | S754_nan => True
  end.
Proof.
  intros Hn. destruct n as [|p|p]; simpl; [reflexivity| |lia].
  unfold binary_round. destruct (shl_align _ _ _) as [mz ez].
  apply binary_round_aux_sign.
Qed.

Lemma iter_xO m d : Zpos (Pos.iter xO m d) = Zpos m * 2 ^ Zpos d.
Proof.
  induction d as [|d IH] using Pos.peano_ind.
  - simpl. lia.
  - rewrite Pos.iter_succ, Pos2Z.inj_succ, Z.pow_succ_r by lia.
    rewrite Pos2Z.inj_xO, IH. lia.
Qed.

(** Aligning a mantissa to a smaller exponent multiplies it by the power
    of two between them. *)
Lemma shl_align_fst m e e' :
  e' <= e -> Zpos (shl_align m e e').1 = Zpos m * 2 ^ (e - e').
Proof.
  intros H. unfold shl_align.
  destruct (e' - e) as [|d|d] eqn:E; simpl.
  - replace (e - e') with 0 by lia. lia.
  - lia.
  - replace (e - e') with (Zpos d) by lia. apply iter_xO.
Qed.

(** A number minus one that is at most it is not negative. *)
Lemma SFsub_sign x y s m e :
  number_le x y = true ->
  SFsub prec emax y x = S754_finite s m e -> s = false.
Proof.
  destruct y as [sy|sy| |sy my ey], x as [sx|sx| |sx mx ex];
    try discriminate; cbn [SFsub].
  - destruct sy, sx; discriminate.
  - unfold number_le, common_exponent, at_exponent. intros H [= <- <- <-].
    apply Z.leb_le in H. rewrite Z.sub_diag in H. destruct sx; [reflexivity|lia].
  - destruct sy, sx; discriminate.
  - unfold number_le, common_exponent, at_exponent. intros H [= <- <- <-].
    apply Z.leb_le in H. rewrite Z.sub_diag in H. destruct sy; [lia|reflexivity].
  - unfold number_le, common_exponent, at_exponent. intros H Hz.
    apply Z.leb_le in H.
    set (ez := Z.min ey ex) in *.
    replace (Z.min ex ey) with ez in H by lia.
    pose proof (shl_align_fst my ey ez ltac:(lia)) as Hy.
    pose proof (shl_align_fst mx ex ez ltac:(lia)) as Hx.
    unfold cond_Zopp in Hz.
    pose proof (binary_normalize_sign
      ((if sy then - Z.pos (shl_align my ey ez).1
        else Z.pos (shl_align my ey ez).1)
       - (if sx then - Z.pos (shl_align mx ex ez).1
          else Z.pos (shl_align mx ex ez).1))
      ez) as Hs.
    rewrite Hz in Hs. apply Hs. rewrite Hy, Hx. destruct sy, sx; lia.
Qed.

Lemma candidate_nonneg x num den n k s t :
  0 <= num -> 0 < den -> candidate x num den n k = Some (s, t) -> 0 <= s.
Proof.
  intros Hn Hd. unfold candidate.
  set (N := if n - k <=? 0 then _ else _).
  set (D := if n - k <=? 0 then _ else _).
  assert (HN : 0 <= N).
  { unfold N. destruct (n - k <=? 0); [|lia].
    apply Z.mul_nonneg_nonneg; [lia|]. apply Z.pow_nonneg. lia. }
  assert (Hlo : 0 <= N / D).
  { destruct (Z.lt_trichotomy D 0) as [H|[H|H]].
    - unfold D in H. destruct (n - k <=? 0) eqn:E; [lia|].
      apply Z.leb_gt in E.
      assert (0 < 10 ^ (n - k)) by (apply Z.pow_pos_nonneg; lia). nia.
    - rewrite H. rewrite Z.div_0_r. lia.
    - apply Z.div_pos; lia. }
  destruct (N mod D =? 0).
  - destruct (_ && _); intros [= <- <-]; lia.
  - destruct (_ && _), (same_number _ _); try discriminate.
    + destruct (2 * (N mod D) ?= D); [destruct (Z.even _)| |];
        intros [= <- <-]; lia.
    + intros [= <- <-]; lia.
    + intros [= <- <-]; lia.
Qed.

Lemma shortest_nonneg fuel x num den n : forall k,
  0 <= num -> 0 < den -> 0 <= (shortest fuel x num den n k).1.
Proof.
  induction fuel as [|f IH]; intros k Hn Hd; simpl.
  - apply Z.div_pos; lia.
  - destruct (candidate x num den n k) as [[s t]|] eqn:E.
    + simpl. eapply candidate_nonneg; eassumption.
    + apply IH; assumption.
Qed.

(** The digits [Number::toString] writes are those of the magnitude. *)
Lemma digits_of_nonneg x : 0 <= (digits_of x).1.
Proof.
  destruct x as [| | |s m e]; [simpl; lia..|].
  unfold digits_of. apply shortest_nonneg.
  - destruct (0 <=? e); [|lia].
    apply Z.mul_nonneg_nonneg; [lia|]. apply Z.pow_nonneg. lia.
  - destruct (0 <=? e) eqn:E; [lia|]. apply Z.pow_pos_nonneg; lia.
Qed.

Lemma to_hundredths_nonneg s t : 0 <= s -> 0 <= to_hundredths s t.
Proof.
  intros Hs. unfold to_hundredths. destruct (0 <=? t + 2) eqn:E.
  - apply Z.mul_nonneg_nonneg; [lia|]. apply Z.pow_nonneg. lia.
  - apply Z.leb_gt in E. apply round_away_nonneg; [lia|].
    apply Z.pow_pos_nonneg; lia.
Qed.

(** With the bound as decrement, the guard [quantity >= ?] keeps the new
    quantity at or above zero, whatever number is bound. *)
Lemma quantity_minus_nonneg c b q :
  quantity_ge c b = true -> quantity_minus c b = Some q -> 0 <= q.
Proof.
  destruct b as [s t|x|name]; unfold quantity_ge, quantity_minus; cbv zeta;
    [| |discriminate].
  - destruct (0 <=? t + 2) eqn:Et.
    + intros H [= <-]. lia.
    + intros H [= <-]. apply Z.leb_gt in Et. apply Z.leb_le in H.
      apply round_away_nonneg; [lia|]. apply Z.pow_pos_nonneg; lia.
  - intros H.
    destruct (SFsub prec emax (nearest_ratio c 100) x)
      as [s0|s0| |s0 m0 e0] eqn:Ez; try discriminate.
    + intros [= <-]. lia.
    + apply (SFsub_sign _ _ _ _ _ H) in Ez as ->.
      pose proof (digits_of_nonneg (S754_finite false m0 e0)) as Hd.
      destruct (digits_of (S754_finite false m0 e0)) as [s t].
      intros [= <-]. apply to_hundredths_nonneg. exact Hd.
Qed.

(** A decrement that the statement carries to within half a hundredth of
    [p] takes exactly [p] hundredths off the row. *)
Lemma quantity_minus_carried x p c :
  carries x p = true ->
  quantity_ge c (literal x) = true ->
  quantity_minus c (literal x) = Some (c - p).
Proof.
  unfold carries. destruct (literal x) as [s t|y|name]; try discriminate.
  simpl. destruct (0 <=? t + 2) eqn:Et.
  - intros H _. apply Z.eqb_eq in H. subst p. reflexivity.
  - intros H Hge. apply Z.leb_gt in Et. apply Z.ltb_lt in H.
    apply Z.leb_le in Hge. f_equal.
    set (D := 10 ^ (- (t + 2))) in *.
    assert (HD : 0 < D) by (apply Z.pow_pos_nonneg; lia).
    unfold round_away.
    destruct (Z.eq_dec (c * D - s) 0) as [H0|H0].
    + rewrite H0. simpl. nia.
    + assert (Hpos : 0 < c * D - s) by lia.
      rewrite Z.sgn_pos by assumption. rewrite Z.abs_eq by lia.
      rewrite Z.mul_1_l. symmetry.
      apply (Z.div_unique _ _ _ (2 * (c * D - s) + D - (c - p) * (2 * D)));
        lia.
Qed.

(** What the conditional update does to the inventory: nothing unless the
    row is there and holds the bound; then the row has the new quantity. *)
Lemma conditional_decrement_inv inv id amount inv' :
  conditional_decrement inv id amount = Some inv' ->
  exists it q,
    inv !! id = Some it /\
    quantity_ge (inv_quantity it) (literal amount) = true /\
    quantity_minus (inv_quantity it) (literal amount) = Some q /\
    inv' = <[id := set_quantity it q]> inv.
Proof.
  unfold conditional_decrement, update_inventory_row.
  destruct (literal amount) as [s t|x|name] eqn:El; [| |discriminate].
  all: destruct (inv !! id) as [it|]; [|discriminate].
  all: destruct (quantity_ge _ _) eqn:Eg; [|discriminate].
  all: destruct (quantity_minus _ _) as [q|] eqn:Em; [|discriminate].
  all: simpl; intros [= <-]; exists it, q; auto.
Qed.

(** The statement and the loop's view of it agree: a row is affected
    exactly when the decrement is made. *)
Lemma update_inventory_row_spec inv id amount :
  match update_inventory_row inv amount id amount with
  | inr (inv', n) =>
      match conditional_decrement inv id amount with
      | Some inv'' => inv' = inv'' /\ n = 1
      | None => inv' = inv /\ n = 0
      end
  | inl _ => conditional_decrement inv id amount = None
  end.
Proof.
  unfold conditional_decrement.
  destruct (update_inventory_row inv amount id amount) as [err|[inv' n]] eqn:E;
    [reflexivity|].
  unfold update_inventory_row in E.
  destruct (literal amount) as [s t|x|name]; [| |discriminate].
  all: destruct (inv !! id) as [it|]; [|injection E as <- <-; simpl; auto].
  all: destruct (quantity_ge (inv_quantity it) _);
    [|injection E as <- <-; simpl; auto].
  all: destruct (quantity_minus (inv_quantity it) _) as [q|]; [|discriminate].
  all: injection E as <- <-; simpl; auto.
Qed.

(** ** The connection's primitives *)

Lemma next_fault_spec w :
  db (next_fault w).2 = db w /\ txn (next_fault w).2 = txn w /\
  orders_auto_increment (next_fault w).2 = orders_auto_increment w /\
  log (next_fault w).2 = log w /\
  (faults w = [] -> (next_fault w).1 = None /\ faults (next_fault w).2 = []).
Proof.
  unfold next_fault. destruct (faults w) as [|f fs] eqn:E; simpl.
  - rewrite E. repeat split; reflexivity.
  - repeat split; try reflexivity; discriminate.
Qed.

(** What one [db.query] does, whatever the driver has in store: the open
    transaction is kept, the statement is logged, and either the call fails
    and the tables are as before, or it resolves to what [run_query] gives. *)
Lemma db_query_inv q w out w' :
  db_query q w = (out, w') ->
  txn w' = txn w /\ log w' = log w ++ [EvQuery q] /\
  ((exists e, out = Rejected e /\ db w' = db w /\
              orders_auto_increment w' = orders_auto_increment w) \/
   (exists r, out = Resolved r /\
              run_query q (db w) (orders_auto_increment w)
              = inr (r, db w', orders_auto_increment w'))).
Proof.
  unfold db_query. intros H.
  destruct (next_fault_spec (emit (EvQuery q) w)) as (Hdb & Htx & Hai & Hlog & _).
  destruct (next_fault (emit (EvQuery q) w)) as [f w1] eqn:Enf. simpl in *.
  destruct f as [err|].
  - inversion H; subst. repeat split; auto. left. eauto.
  - rewrite Hdb, Hai in H. simpl in H.
    destruct (run_query q (db w) (orders_auto_increment w))
      as [err | [[r t] n]] eqn:Erq.
    + inversion H; subst. repeat split; auto. left. eauto.
    + inversion H; subst. simpl. repeat split; auto. right. eauto.
Qed.

(** With no driver error pending, a query is its statement run on the
    tables. *)
Lemma db_query_healthy q w :
  faults w = [] ->
  db_query q w =
    match run_query q (db w) (orders_auto_increment w) with
    | inl err => (Rejected err, emit (EvQuery q) w)
    | inr (r, t, n) =>
        (Resolved r, set_auto_increment (set_db (emit (EvQuery q) w) t) n)
    end.
Proof.
  intros Hf. unfold db_query, next_fault. simpl. rewrite Hf. reflexivity.
Qed.

Lemma db_rollback_restores w t :
  txn w = Some t -> db (db_rollback w) = t.
Proof. unfold db_rollback. simpl. intros ->. reflexivity. Qed.

Lemma db_rollback_log w : log (db_rollback w) = log w ++ [EvRollback].
Proof. unfold db_rollback. simpl. destruct (txn w); reflexivity. Qed.

Lemma db_beginTransaction_inv w o w1 :
  db_beginTransaction w = (o, w1) ->
  db w1 = db w /\ log w1 = log w ++ [EvBeginTransaction] /\
  orders_auto_increment w1 = orders_auto_increment w /\
  (o = None -> txn w1 = Some (db w)).
Proof.
  unfold db_beginTransaction. intros H.
  destruct (next_fault_spec (emit EvBeginTransaction w)) as (Hdb & Htx & Hai & Hlog & _).
  destruct (next_fault (emit EvBeginTransaction w)) as [f w0]. simpl in *.
  destruct f; inversion H; subst; simpl; repeat split; auto; try discriminate.
  intros _. congruence.
Qed.

Lemma db_commit_inv w o w3 :
  db_commit w = (o, w3) ->
  db w3 = db w /\ log w3 = log w ++ [EvCommit] /\
  (forall e, o = Some e -> txn w3 = txn w).
Proof.
  unfold db_commit. intros H.
  destruct (next_fault_spec (emit EvCommit w)) as (Hdb & Htx & Hai & Hlog & _).
  destruct (next_fault (emit EvCommit w)) as [f w0]. simpl in *.
  destruct f; inversion H; subst; simpl; repeat split; auto; try discriminate.
Qed.

(** ** The conditional update *)

Lemma no_new_negative_refl inv : no_new_negative inv inv.
Proof. intros id it H. now left. Qed.

Lemma no_new_negative_trans inv1 inv2 inv3 :
  no_new_negative inv1 inv2 -> no_new_negative inv2 inv3 ->
  no_new_negative inv1 inv3.
Proof.
  intros H12 H23 id it H. destruct (H23 id it H) as [H2|]; [|now right].
  exact (H12 id it H2).
Qed.

(** The guard [quantity >= ?] keeps the decremented row at or above zero;
    every other row is untouched. *)
Lemma conditional_decrement_guard inv id amount inv' :
  conditional_decrement inv id amount = Some inv' ->
  no_new_negative inv inv'.
Proof.
  intros H. apply conditional_decrement_inv in H
    as (it & q & Hid & Hge & Hm & ->).
  intros k it' Hk. destruct (decide (id = k)) as [->|Hne].
  - rewrite lookup_insert_eq in Hk. injection Hk as <-. right. simpl.
    eapply quantity_minus_nonneg; eassumption.
  - rewrite lookup_insert_ne in Hk by assumption. now left.
Qed.

(** ** The deduction loop, whatever the driver has in store *)

Lemma set_inventory_same t : set_inventory t (inventory t) = t.
Proof. destruct t; reflexivity. Qed.

Lemma same_but_inventory_refl t : same_but_inventory t t.
Proof. unfold same_but_inventory. now rewrite set_inventory_same. Qed.

Lemma same_but_inventory_trans t1 t2 t3 :
  same_but_inventory t1 t2 -> same_but_inventory t2 t3 ->
  same_but_inventory t1 t3.
Proof.
  unfold same_but_inventory. intros H12 H23. rewrite H23 at 1. rewrite H12.
  reflexivity.
Qed.

(** Splits an equation [bind m k w = (out, w')] on what [m] did. *)
Ltac bind_inv H :=
  let r := fresh "r" in
  let e := fresh "e" in
  let w1 := fresh "w1" in
  let E := fresh "E" in
  unfold bind in H;
  match type of H with
  | context [match ?m ?w with _ => _ end] =>
      destruct (m w) as [[r|e] w1] eqn:E
  end.

Lemma decrement_inventory_inv mapping item w out w' :
  decrement_inventory mapping item w = (out, w') ->
  let amount := times (quantity_required mapping) (quantity item) in
  let id := inventory_item_id mapping in
  txn w' = txn w /\ orders_auto_increment w' = orders_auto_increment w /\
  log w' = log w ++ [EvQuery (UpdateInventory amount id amount)] /\
  match out with
  | Resolved _ =>
      exists inv', conditional_decrement (inventory (db w)) id amount = Some inv'
                   /\ db w' = set_inventory (db w) inv'
  | Rejected e => e = "Insufficient inventory"%string /\ db w' = db w
  end.
Proof.
  intros H amount id. unfold decrement_inventory in H. fold amount id in H.
  destruct (db_query (UpdateInventory amount id amount) w) as [o w1] eqn:E.
  apply db_query_inv in E as (Htx & Hlog & Hcase).
  destruct Hcase as [(e & -> & Hdb & Hai) | (r & -> & Hrun)].
  - inversion H; subst. auto.
  - simpl in Hrun.
    pose proof (update_inventory_row_spec (inventory (db w)) id amount) as Hs.
    destruct (update_inventory_row (inventory (db w)) amount id amount)
      as [err|[inv1 n]]; [discriminate|].
    inversion Hrun as [[Hr Hdb Hai]]; subst r; simpl in H.
    destruct (conditional_decrement (inventory (db w)) id amount) as [inv'|];
      destruct Hs as [-> ->]; simpl in H; inversion H; subst.
    + repeat split; auto. exists inv'. auto.
    + repeat split; auto. rewrite <- Hdb. apply set_inventory_same.
Qed.

Lemma for_mappings_inv item mappings : forall w out w',
  for_mappings item mappings w = (out, w') ->
  txn w' = txn w /\ orders_auto_increment w' = orders_auto_increment w /\
  same_but_inventory (db w) (db w') /\
  no_new_negative (inventory (db w)) (inventory (db w')) /\
  (exists qs, log w' = log w ++ map EvQuery qs) /\
  match out with
  | Resolved _ =>
      deduct_line item mappings (inventory (db w)) = Some (inventory (db w'))
  | Rejected e => e = "Insufficient inventory"%string
  end.
Proof.
  induction mappings as [|m rest IH]; intros w out w' H; simpl in H.
  - inversion H; subst. repeat split; auto using same_but_inventory_refl, no_new_negative_refl.
    exists []. simpl. now rewrite app_nil_r.
  - bind_inv H.
    + apply decrement_inventory_inv in E as (Htx & Hai & Hlog & inv1 & Hc & Hdb).
      apply IH in H as (Htx' & Hai' & Hsame & Hnn & (qs & Hlog') & Hout).
      assert (Hinv1 : inventory (db w1) = inv1) by (rewrite Hdb; reflexivity).
      repeat split; try congruence.
      * eapply same_but_inventory_trans; [|exact Hsame].
        unfold same_but_inventory. rewrite Hdb. reflexivity.
      * eapply no_new_negative_trans; [|exact Hnn]. rewrite Hinv1.
        eapply conditional_decrement_guard; eassumption.
      * eexists (_ :: qs). rewrite Hlog', Hlog, <- app_assoc. reflexivity.
      * destruct out; [|assumption]. simpl. rewrite Hc, <- Hinv1. assumption.
    + apply decrement_inventory_inv in E as (Htx & Hai & Hlog & -> & Hdb).
      inversion H; subst. rewrite Hdb.
      repeat split; auto using same_but_inventory_refl, no_new_negative_refl.
      eexists [_]. exact Hlog.
Qed.

Lemma select_mappings_inv menu_item w out w' :
  db_query (SelectMappings menu_item) w = (out, w') ->
  txn w' = txn w /\ orders_auto_increment w' = orders_auto_increment w /\
  db w' = db w /\ log w' = log w ++ [EvQuery (SelectMappings menu_item)] /\
  forall r, out = Resolved r ->
    rows r = mappings_for (menu_inventory_mapping (db w)) menu_item.
Proof.
  intros H. apply db_query_inv in H as (Htx & Hlog & Hcase).
  destruct Hcase as [(e & -> & Hdb & Hai) | (r & -> & Hrun)].
  - repeat split; auto. discriminate.
  - simpl in Hrun. inversion Hrun; subst. repeat split; auto. now intros ? [= <-].
Qed.

Lemma for_items_inv its : forall w out w',
  for_items its w = (out, w') ->
  txn w' = txn w /\ orders_auto_increment w' = orders_auto_increment w /\
  same_but_inventory (db w) (db w') /\
  no_new_negative (inventory (db w)) (inventory (db w')) /\
  (exists qs, log w' = log w ++ map EvQuery qs) /\
  (forall u, out = Resolved u ->
     deduct_lines (menu_inventory_mapping (db w)) its (inventory (db w))
     = Some (inventory (db w'))).
Proof.
  induction its as [|item rest IH]; intros w out w' H; simpl in H.
  - inversion H; subst. repeat split; auto using same_but_inventory_refl, no_new_negative_refl.
    exists []. simpl. now rewrite app_nil_r.
  - bind_inv H.
    + apply select_mappings_inv in E as (Htx & Hai & Hdb & Hlog & Hrows).
      specialize (Hrows r eq_refl).
      bind_inv H.
      * apply for_mappings_inv in E as (Htx1 & Hai1 & Hsame1 & Hnn1 & (qs1 & Hlog1) & Hline).
        apply IH in H as (Htx2 & Hai2 & Hsame2 & Hnn2 & (qs2 & Hlog2) & Hrest).
        rewrite Hdb in *.
        assert (Hmap : menu_inventory_mapping (db w0) = menu_inventory_mapping (db w))
          by (rewrite Hsame1; reflexivity).
        repeat split; try congruence.
        -- eapply same_but_inventory_trans; eassumption.
        -- eapply no_new_negative_trans; eassumption.
        -- exists (SelectMappings (menu_item_id item) :: qs1 ++ qs2).
           rewrite Hlog2, Hlog1, Hlog, map_cons, map_app, <- !app_assoc. reflexivity.
        -- intros u ->. simpl. rewrite <- Hrows, Hline, <- Hmap. eauto.
      * apply for_mappings_inv in E as (Htx1 & Hai1 & Hsame1 & Hnn1 & (qs1 & Hlog1) & _).
        inversion H; subst. rewrite Hdb in *.
        repeat split; try congruence; try discriminate; try assumption.
        exists (SelectMappings (menu_item_id item) :: qs1).
        rewrite Hlog1, Hlog, map_cons, <- app_assoc. reflexivity.
    + apply select_mappings_inv in E as (Htx & Hai & Hdb & Hlog & _).
      inversion H; subst. rewrite Hdb.
      repeat split; auto using same_but_inventory_refl, no_new_negative_refl; try discriminate.
      eexists [_]. exact Hlog.
Qed.

(** ** The three inserts *)

Lemma insert_order_inv name phone email total method w r w' :
  db_query (InsertOrder name phone email total method) w = (Resolved r, w') ->
  exists n p a,
    name = Some n /\ phone = Some p /\ total = Some a /\
    insertId r = orders_auto_increment w /\
    db w' = set_orders (db w)
              (orders (db w) ++
               [order_row (orders_auto_increment w) n p email a method]) /\
    txn w' = txn w /\
    log w' = log w ++ [EvQuery (InsertOrder name phone email total method)].
Proof.
  intros H. apply db_query_inv in H as (Htx & Hlog & Hcase).
  destruct Hcase as [(e & [=] & _) | (r' & [= <-] & Hrun)].
  simpl in Hrun.
  destruct name as [n|], phone as [p|], total as [a|]; try discriminate.
  inversion Hrun; subst. exists n, p, a. simpl. repeat split; auto.
Qed.

Lemma insert_order_items_inv itemsData w r w' :
  db_query (InsertOrderItems itemsData) w = (Resolved r, w') ->
  db w' = set_order_items (db w)
            (order_items (db w) ++ map order_item_of_row itemsData) /\
  orders_auto_increment w' = orders_auto_increment w /\
  txn w' = txn w /\
  log w' = log w ++ [EvQuery (InsertOrderItems itemsData)].
Proof.
  intros H. apply db_query_inv in H as (Htx & Hlog & Hcase).
  destruct Hcase as [(e & [=] & _) | (r' & [= <-] & Hrun)].
  simpl in Hrun. destruct itemsData as [|row rest]; [discriminate|].
  destruct (forallb _ (row :: rest)); [|discriminate].
  inversion Hrun; subst. repeat split; auto.
Qed.

Lemma insert_payment_inv orderId amount method w r w' :
  db_query (InsertPayment orderId amount method) w = (Resolved r, w') ->
  exists a m,
    amount = Some a /\ method = Some m /\
    db w' = set_payments (db w) (payments (db w) ++ [payment_row orderId a m]) /\
    txn w' = txn w /\
    log w' = log w ++ [EvQuery (InsertPayment orderId amount method)].
Proof.
  intros H. apply db_query_inv in H as (Htx & Hlog & Hcase).
  destruct Hcase as [(e & [=] & _) | (r' & [= <-] & Hrun)].
  simpl in Hrun. destruct amount as [a|], method as [m|]; try discriminate.
  destruct (order_exists (db w) orderId); [|discriminate].
  inversion Hrun; subst. exists a, m. repeat split; auto.
Qed.

Lemma notify_spec b orderId its w :
  notify b orderId its w =
    (Resolved tt,
     {| db := db w; txn := txn w;
        orders_auto_increment := orders_auto_increment w;
        faults := faults w; log := log w ++ mails_of b orderId its |}).
Proof.
  unfold notify, mails_of, sendEmail, ret, emit, confirmation_mail.
  destruct (customer_email b) as [to|]; [destruct (truthy (Some to))|];
    try reflexivity.
  all: rewrite app_nil_r; destruct w; reflexivity.
Qed.

Lemma map_itemsData_row orderId its :
  map order_item_of_row (map (itemsData_row orderId) its)
  = map (order_item_row orderId) its.
Proof. rewrite map_map. reflexivity. Qed.

(** ** The [try] block *)

(** Whatever the driver has in store: the block keeps the open transaction
    and never makes a quantity negative; if it rejects it has sent no mail;
    if it resolves, the order is placed and the only mail is the one of
    the [if (customer_email)] block, handed over after the last statement. *)
Lemma try_block_inv b w out w' :
  try_block b w = (out, w') ->
  txn w' = txn w /\
  no_new_negative (inventory (db w)) (inventory (db w')) /\
  match out with
  | Resolved orderId =>
      placed b orderId w w' /\
      exists qs, log w' = log w ++ map EvQuery qs ++ mails_of b orderId
                                   (default [] (items b))
  | Rejected _ => exists qs, log w' = log w ++ map EvQuery qs
  end.
Proof.
  unfold try_block. intros H.
  bind_inv H.
  2:{ inversion H; subst. apply db_query_inv in E as (Htx & Hlog & Hcase).
      destruct Hcase as [(e' & _ & Hdb & _) | (? & [=] & _)].
      rewrite Hdb. repeat split; auto using no_new_negative_refl.
      eexists [_]. exact Hlog. }
  apply insert_order_inv in E as (n & p & a & Hn & Hp & Ha & Hid & Hdb1 & Htx1 & Hlog1).
  bind_inv H.
  2:{ unfold items_of in E. destruct (items b); inversion E; subst.
      inversion H; subst. rewrite Hdb1.
      repeat split; auto using no_new_negative_refl. eexists [_]. exact Hlog1. }
  unfold items_of in E. destruct (items b) as [its|] eqn:Eits; inversion E; subst r0 w0.
  clear E. bind_inv H.
  2:{ inversion H; subst. apply db_query_inv in E as (Htx & Hlog & Hcase).
      destruct Hcase as [(e' & _ & Hdb & _) | (? & [=] & _)].
      rewrite Hdb, Hdb1. repeat split; try congruence; auto using no_new_negative_refl.
      eexists [_; _]. rewrite Hlog, Hlog1, <- app_assoc. reflexivity. }
  apply insert_order_items_inv in E as (Hdb2 & Hai2 & Htx2 & Hlog2).
  bind_inv H.
  2:{ inversion H; subst.
      apply for_items_inv in E as (Htx3 & Hai3 & Hsame3 & Hnn3 & (qs3 & Hlog3) & _).
      rewrite Hdb2, Hdb1 in Hnn3. simpl in Hnn3.
      repeat split; try congruence; try assumption.
      eexists (_ :: _ :: qs3). rewrite Hlog3, Hlog2, Hlog1, <- !app_assoc. reflexivity. }
  apply for_items_inv in E as (Htx3 & Hai3 & Hsame3 & Hnn3 & (qs3 & Hlog3) & Hded).
  specialize (Hded r1 eq_refl).
  rewrite Hdb2, Hdb1 in Hnn3, Hded. simpl in Hnn3, Hded.
  bind_inv H.
  2:{ inversion H; subst. apply db_query_inv in E as (Htx & Hlog & Hcase).
      destruct Hcase as [(e' & _ & Hdb & _) | (? & [=] & _)].
      rewrite Hdb. repeat split; try congruence; try assumption.
      eexists (_ :: _ :: qs3 ++ [_]).
      rewrite Hlog, Hlog3, Hlog2, Hlog1, map_cons, map_cons, map_app, <- !app_assoc.
      reflexivity. }
  apply insert_payment_inv in E as (a' & m & Ha' & Hm & Hdb4 & Htx4 & Hlog4).
  rewrite notify_spec in H. unfold bind, ret in H. inversion H; subst out w'.
  clear H. rewrite Ha in Ha'. injection Ha' as <-.
  assert (Hdb3 : db w2 = set_inventory (db w0) (inventory (db w2))) by exact Hsame3.
  simpl. split; [congruence|]. split; [|split].
  - rewrite Hdb4. simpl. exact Hnn3.
  - exists n, p, a, m, its. simpl.
    rewrite Hdb4. simpl. rewrite Hdb3. simpl. rewrite Hdb2. simpl.
    rewrite Hdb1. simpl. rewrite Hid, Hm, map_itemsData_row.
    repeat split; auto.
  - eexists (_ :: _ :: qs3 ++ [_]).
    rewrite Hlog4, Hlog3, Hlog2, Hlog1, map_cons, map_cons, map_app.
    simpl. rewrite <- !app_assoc. reflexivity.
Qed.

(** ** The handler, case by case *)

Lemma invalid_unless_msg field ok e :
  e ∈ invalid_unless field ok -> msg e = "Invalid value"%string.
Proof.
  unfold invalid_unless. destruct ok; intros H.
  - inversion H.
  - apply list_elem_of_singleton in H. now subst.
Qed.

Lemma validationResult_msg isEmail b e :
  e ∈ validationResult isEmail b -> msg e = "Invalid value"%string.
Proof.
  unfold validationResult. rewrite !elem_of_app.
  intros [H|[H|[H|[H|[H|[H|H]]]]]];
    try (eapply invalid_unless_msg; eassumption).
  destruct (customer_email b).
  - eapply invalid_unless_msg; eassumption.
  - inversion H.
Qed.

Lemma placed_after_begin b orderId w w1 w' :
  db w1 = db w -> orders_auto_increment w1 = orders_auto_increment w ->
  placed b orderId w1 w' -> placed b orderId w w'.
Proof. unfold placed. intros -> ->. auto. Qed.

(** Every run of the handler ends in one of three ways: the request is
    turned down before anything is sent to the store; or it fails with
    status 500 and the tables are what they were; or it answers 201 and the
    order is placed. *)
Lemma post_api_orders_outcome isEmail b w resp w' :
  post_api_orders isEmail b w = (resp, w') ->
  (validationResult isEmail b <> [] /\
   resp = error_response 400 "Invalid value" /\ w' = w)
  \/ (validationResult isEmail b = [] /\
      (exists e, resp = error_response 500 e) /\ db w' = db w)
  \/ (validationResult isEmail b = [] /\
      exists orderId,
        resp = {| status := 201;
                  body := CreatedBody "Order created successfully" orderId |} /\
        placed b orderId w w' /\
        no_new_negative (inventory (db w)) (inventory (db w'))).
Proof.
  unfold post_api_orders. intros H.
  destruct (validationResult isEmail b) as [|e es] eqn:Ev.
  2:{ left. inversion H; subst. split; [discriminate|]. split; [|reflexivity].
      f_equal. apply (validationResult_msg isEmail b). rewrite Ev. left. }
  right.
  destruct (db_beginTransaction w) as [o w1] eqn:Eb.
  apply db_beginTransaction_inv in Eb as (Hdb1 & Hlog1 & Hai1 & Htxn1).
  destruct o as [err|].
  { left. inversion H; subst. eauto. }
  specialize (Htxn1 eq_refl).
  destruct (try_block b w1) as [[orderId|message] w2] eqn:Et;
    apply try_block_inv in Et as (Htx2 & Hnn2 & Hout).
  - destruct Hout as [Hplaced _].
    destruct (db_commit w2) as [o w3] eqn:Ec.
    apply db_commit_inv in Ec as (Hdb3 & Hlog3 & Htx3).
    destruct o as [err|]; inversion H; subst.
    + left. split; [reflexivity|]. split; [eauto|].
      erewrite db_rollback_restores; [reflexivity|].
      rewrite (Htx3 err eq_refl). congruence.
    + right. split; [reflexivity|]. exists orderId. split; [reflexivity|].
      split.
      * eapply placed_after_begin; [exact Hdb1|exact Hai1|].
        unfold placed in *. rewrite Hdb3. exact Hplaced.
      * rewrite Hdb3, <- Hdb1. exact Hnn2.
  - left. inversion H; subst. split; [reflexivity|]. split; [eauto|].
    erewrite db_rollback_restores; [reflexivity|]. congruence.
Qed.

(** ** Validation *)

Lemma invalid_unless_nil field ok : invalid_unless field ok = [] <-> ok = true.
Proof. unfold invalid_unless. destruct ok; split; auto; discriminate. Qed.

Lemma notEmpty_isString v : notEmpty v = true -> isString v = true.
Proof. destruct v; auto. Qed.

(** What the validators accept: a non-empty name and phone, an address
    where an e-mail is given, a total of at least zero and at least one
    item. *)
Lemma validationResult_nil isEmail b :
  validationResult isEmail b = [] <->
  notEmpty (customer_name b) = true /\
  notEmpty (customer_phone b) = true /\
  match customer_email b with
  | Some e => isEmail e = true
  | None => True
  end /\
  isFloat_min 0 (total_amount b) = true /\
  isArray_min 1 (items b) = true.
Proof.
  unfold validationResult.
  rewrite !app_nil. rewrite !invalid_unless_nil.
  destruct (customer_email b) as [e|]; rewrite ?invalid_unless_nil;
    intuition auto using notEmpty_isString.
Qed.

Lemma rejected_before_store isEmail b w :
  validationResult isEmail b <> [] ->
  post_api_orders isEmail b w = (error_response 400 "Invalid value", w).
Proof.
  intros Hne. destruct (post_api_orders isEmail b w) as [resp w'] eqn:E.
  apply post_api_orders_outcome in E as [(_ & -> & ->) | [(Hv & _) | (Hv & _)]];
    [reflexivity | contradiction | contradiction].
Qed.

Lemma accepted_reaches_store isEmail b w :
  validationResult isEmail b = [] ->
  exists evs,
    log (post_api_orders isEmail b w).2 = log w ++ EvBeginTransaction :: evs.
Proof.
  intros Hv. unfold post_api_orders. rewrite Hv.
  destruct (db_beginTransaction w) as [o w1] eqn:Eb.
  apply db_beginTransaction_inv in Eb as (Hdb1 & Hlog1 & Hai1 & Htxn1).
  destruct o as [err|]; simpl.
  { exists []. exact Hlog1. }
  destruct (try_block b w1) as [[orderId|message] w2] eqn:Et;
    apply try_block_inv in Et as (_ & _ & Hout).
  - destruct Hout as [_ (qs & Hlog2)].
    destruct (db_commit w2) as [o w3] eqn:Ec.
    apply db_commit_inv in Ec as (_ & Hlog3 & _).
    destruct o; simpl; rewrite ?db_rollback_log, Hlog3, Hlog2, Hlog1, <- !app_assoc;
      simpl; eauto.
  - destruct Hout as (qs & Hlog2). simpl.
    rewrite db_rollback_log, Hlog2, Hlog1, <- !app_assoc. simpl. eauto.
Qed.

(** ** Deductions and demand *)

Lemma conditional_decrement_lookup inv id amount p inv' :
  carries amount p = true ->
  conditional_decrement inv id amount = Some inv' ->
  forall k it, inv !! k = Some it ->
    exists it', inv' !! k = Some it' /\
      inv_quantity it' =
        inv_quantity it - (if decide (id = k) then p else 0).
Proof.
  intros Hc H. apply conditional_decrement_inv in H
    as (it0 & q & Hid & Hge & Hm & ->).
  rewrite (quantity_minus_carried _ _ _ Hc Hge) in Hm. injection Hm as <-.
  intros k it Hk. destruct (decide (id = k)) as [->|Hne].
  - rewrite lookup_insert_eq. eexists; split; [reflexivity|].
    rewrite Hid in Hk. injection Hk as ->. reflexivity.
  - rewrite lookup_insert_ne by assumption. exists it. split; [assumption|lia].
Qed.

Lemma deduct_line_demand line mappings : forall inv inv',
  forallb (fun m => carries (times (quantity_required m) (quantity line))
                            (quantity_required m * quantity line))
          mappings = true ->
  deduct_line line mappings inv = Some inv' ->
  forall k it, inv !! k = Some it ->
    exists it', inv' !! k = Some it' /\
      inv_quantity it' = inv_quantity it - line_demand line mappings k.
Proof.
  induction mappings as [|m rest IH]; simpl; intros inv inv' Hc H k it Hk.
  - injection H as <-. exists it. split; [assumption|lia].
  - apply andb_true_iff in Hc as [Hm Hrest].
    destruct (conditional_decrement inv _ _) as [inv1|] eqn:Ec; [|discriminate].
    destruct (conditional_decrement_lookup _ _ _ _ _ Hm Ec k it Hk)
      as (it1 & Hk1 & Hq1).
    destruct (IH _ _ Hrest H k it1 Hk1) as (it' & Hk' & Hq').
    exists it'. split; [assumption|]. rewrite Hq', Hq1.
    destruct (decide (inventory_item_id m = k)); lia.
Qed.

Lemma deduct_lines_demand table lines : forall inv inv',
  products_carried table lines = true ->
  deduct_lines table lines inv = Some inv' ->
  forall k it, inv !! k = Some it ->
    exists it', inv' !! k = Some it' /\
      inv_quantity it' = inv_quantity it - demand table lines k.
Proof.
  unfold products_carried.
  induction lines as [|l rest IH]; simpl; intros inv inv' Hc H k it Hk.
  - injection H as <-. exists it. split; [assumption|lia].
  - apply andb_true_iff in Hc as [Hl Hrest].
    destruct (deduct_line l _ inv) as [inv1|] eqn:El; [|discriminate].
    destruct (deduct_line_demand _ _ _ _ Hl El k it Hk) as (it1 & Hk1 & Hq1).
    destruct (IH _ _ Hrest H k it1 Hk1) as (it' & Hk' & Hq').
    exists it'. split; [assumption|]. rewrite Hq', Hq1. lia.
Qed.

Lemma deduct_line_guard line mappings : forall inv inv',
  deduct_line line mappings inv = Some inv' -> no_new_negative inv inv'.
Proof.
  induction mappings as [|m rest IH]; simpl; intros inv inv' H.
  - injection H as <-. apply no_new_negative_refl.
  - destruct (conditional_decrement inv _ _) as [inv1|] eqn:Ec; [|discriminate].
    eapply no_new_negative_trans; [eapply conditional_decrement_guard|]; eauto.
Qed.

Lemma deduct_lines_guard table lines : forall inv inv',
  deduct_lines table lines inv = Some inv' -> no_new_negative inv inv'.
Proof.
  induction lines as [|l rest IH]; simpl; intros inv inv' H.
  - injection H as <-. apply no_new_negative_refl.
  - destruct (deduct_line l _ inv) as [inv1|] eqn:El; [|discriminate].
    eapply no_new_negative_trans; [eapply deduct_line_guard|]; eauto.
Qed.

(** * The placement of an order *)

(** ** What the validators stop *)

(** C9. A request whose items list is empty is answered 400 by the
    validation guard, and the world after the handler is the world before
    it: nothing was sent to the store, not even [START TRANSACTION]. *)
Theorem empty_items_rejected_before_store isEmail b w :
  items b = Some [] ->
  post_api_orders isEmail b w = (error_response 400 "Invalid value", w).
Proof.
  intros Hits. apply rejected_before_store. intros Hv.
  apply validationResult_nil in Hv as (_ & _ & _ & _ & Hv).
  rewrite Hits in Hv. discriminate.
Qed.

Lemma empty_items_rejected_before_store_witness :
  items (set_items sample_body (Some [])) = Some [] /\
  post_api_orders simple_isEmail (set_items sample_body (Some [])) sample_world
  = (error_response 400 "Invalid value", sample_world).
Proof.
  split; [reflexivity|].
  apply (empty_items_rejected_before_store simple_isEmail
           (set_items sample_body (Some [])) sample_world).
  reflexivity.
Defined.

(** C4, on the code. A request whose only line has quantity -2 and price
    -1.00 is outside the contract of the entries of [items]. The
    validators let it pass; the handler answers 201; the order_items row
    with the quantity -2 and the price -1.00 is stored and committed, and
    0.4 kg of flour have been added to the stock. *)
Theorem unchecked_line_reaches_store :
  forallb line_in_contract
    [ {| menu_item_id := 1; quantity := -2; price := -100 |} ] = false /\
  items negative_line_body
    = Some [ {| menu_item_id := 1; quantity := -2; price := -100 |} ] /\
  validationResult simple_isEmail negative_line_body = [] /\
  (post_api_orders simple_isEmail negative_line_body sample_world).1
    = {| status := 201;
         body := CreatedBody "Order created successfully" 1 |} /\
  order_items (db (post_api_orders simple_isEmail negative_line_body
                                   sample_world).2)
    = [ {| oi_order_id := 1; oi_menu_item_id := 1; oi_quantity := -2;
           oi_price := -100 |} ] /\
  txn (post_api_orders simple_isEmail negative_line_body sample_world).2
    = None /\
  last (log (post_api_orders simple_isEmail negative_line_body
                             sample_world).2) = Some EvCommit /\
  inv_quantity <$> sample_inventory !! 1 = Some 5000 /\
  inv_quantity <$>
    inventory (db (post_api_orders simple_isEmail negative_line_body
                                   sample_world).2) !! 1 = Some 5040.
Proof. vm_compute. repeat split; reflexivity. Qed.

(** ** A placement that fails, run alone *)

(** X19. A placement that runs with no other request between its calls
    and does not end in 201 ends in an error response and leaves every
    table as it was: no row more in orders, order_items or payments, no
    quantity changed. And a placement one of whose updates affects no row
    (or is refused by the server) does not end in 201. This holds
    whatever errors the driver reports on the way. *)
Theorem failed_placement_rolls_back isEmail b w resp w' :
  post_api_orders isEmail b w = (resp, w') ->
  (status resp <> 201 ->
     (exists e, body resp = ErrorBody e) /\ db w' = db w) /\
  (forall its, items b = Some its ->
     deduct_lines (menu_inventory_mapping (db w)) its (inventory (db w)) = None ->
     status resp <> 201).
Proof.
  intros H. split.
  - intros Hst.
    apply post_api_orders_outcome in H
      as [(_ & -> & ->) | [(_ & (e & ->) & Hdb) | (_ & orderId & -> & _)]].
    + split; [eexists|]; reflexivity.
    + split; [eexists; reflexivity|assumption].
    + simpl in Hst. contradiction.
  - intros its Hits Hnone.
    apply post_api_orders_outcome in H
      as [(_ & -> & _) | [(_ & (e & ->) & _) | (_ & orderId & _ & Hp & _)]];
      try (simpl; discriminate).
    destruct Hp as (? & ? & ? & ? & its' & _ & _ & _ & _ & Hits' & _ & _ & _ & _ & _ & Hded & _).
    rewrite Hits in Hits'. injection Hits' as <-. congruence.
Qed.

Lemma failed_placement_rolls_back_witness :
  status (post_api_orders simple_isEmail sample_body flour_short_world).1 <> 201 /\
  db (post_api_orders simple_isEmail sample_body flour_short_world).2
  = db flour_short_world.
Proof.
  pose proof (failed_placement_rolls_back simple_isEmail sample_body
                flour_short_world
                (post_api_orders simple_isEmail sample_body flour_short_world).1
                (post_api_orders simple_isEmail sample_body flour_short_world).2
                (surjective_pairing _)) as (Hroll & Hseq).
  assert (Hst : status (post_api_orders simple_isEmail sample_body
                                        flour_short_world).1 <> 201).
  { apply (Hseq [ {| menu_item_id := 1; quantity := 2; price := 25000 |} ]);
      vm_compute; reflexivity. }
  split; [exact Hst|]. exact (proj2 (Hroll Hst)).
Defined.

Lemma handler_no_new_negative isEmail b w :
  no_new_negative (inventory (db w))
                  (inventory (db (post_api_orders isEmail b w).2)).
Proof.
  destruct (post_api_orders isEmail b w) as [resp w'] eqn:E. simpl.
  apply post_api_orders_outcome in E
    as [(_ & _ & ->) | [(_ & _ & ->) | (_ & orderId & _ & _ & Hnn)]];
    auto using no_new_negative_refl.
Qed.

(** A store whose quantities are all non-negative stays so. *)
Corollary placement_keeps_inventory_nonneg isEmail b w :
  inventory_nonneg (inventory (db w)) ->
  inventory_nonneg (inventory (db (post_api_orders isEmail b w).2)).
Proof.
  intros Hnn id it' H.
  destruct (handler_no_new_negative isEmail b w id it' H) as [Hold|];
    [|assumption].
  exact (Hnn id it' Hold).
Qed.

(** ** The deduction loop on a healthy connection *)

Lemma decrement_inventory_healthy mapping item w :
  faults w = [] ->
  exists w',
    decrement_inventory mapping item w =
      (match conditional_decrement (inventory (db w))
               (inventory_item_id mapping)
               (times (quantity_required mapping) (quantity item)) with
       | Some _ => Resolved tt
       | None => Rejected "Insufficient inventory"
       end, w') /\
    faults w' = [].
Proof.
  intros Hf. unfold decrement_inventory. rewrite db_query_healthy by assumption.
  simpl.
  pose proof (update_inventory_row_spec (inventory (db w))
                (inventory_item_id mapping)
                (times (quantity_required mapping) (quantity item))) as Hs.
  destruct (update_inventory_row _ _ _ _) as [err|[inv1 n]].
  - rewrite Hs. eexists; split; [reflexivity|assumption].
  - destruct (conditional_decrement _ _ _); destruct Hs as [-> ->]; simpl;
      eexists; split; try reflexivity; assumption.
Qed.

Lemma for_mappings_healthy item mappings : forall w,
  faults w = [] ->
  exists w',
    for_mappings item mappings w =
      (match deduct_line item mappings (inventory (db w)) with
       | Some _ => Resolved tt
       | None => Rejected "Insufficient inventory"
       end, w') /\
    faults w' = [] /\
    log w' = log w ++ map EvQuery (line_queries item mappings (inventory (db w))).
Proof.
  induction mappings as [|m rest IH]; intros w Hf; simpl.
  - exists w. unfold ret. rewrite app_nil_r. auto.
  - destruct (decrement_inventory_healthy m item w Hf) as (w1 & E & Hf1).
    unfold bind. rewrite E.
    pose proof (decrement_inventory_inv _ _ _ _ _ E) as (_ & _ & Hlog & Hout).
    destruct (conditional_decrement _ _ _) as [inv1|] eqn:Ec.
    + destruct Hout as (inv1' & [= <-] & Hdb).
      destruct (IH w1 Hf1) as (w' & E' & Hf' & Hlog').
      rewrite Hdb in E', Hlog'. simpl in E', Hlog'.
      exists w'. split; [exact E'|]. split; [exact Hf'|].
      rewrite Hlog', Hlog, <- app_assoc. reflexivity.
    + exists w1. auto.
Qed.

Lemma for_items_healthy its : forall w,
  faults w = [] ->
  exists w',
    for_items its w =
      (match deduct_lines (menu_inventory_mapping (db w)) its
                          (inventory (db w)) with
       | Some _ => Resolved tt
       | None => Rejected "Insufficient inventory"
       end, w') /\
    faults w' = [] /\
    log w' = log w ++
             map EvQuery (deduction_queries (menu_inventory_mapping (db w)) its
                                            (inventory (db w))).
Proof.
  induction its as [|item rest IH]; intros w Hf; simpl.
  - exists w. unfold ret. rewrite app_nil_r. auto.
  - unfold bind. rewrite db_query_healthy by assumption. simpl.
    fold (mappings_for (menu_inventory_mapping (db w)) (menu_item_id item)).
    set (w0 := set_auto_increment _ _).
    assert (Hf0 : faults w0 = []) by exact Hf.
    destruct (for_mappings_healthy item
                (mappings_for (menu_inventory_mapping (db w)) (menu_item_id item))
                w0 Hf0) as (w1 & E1 & Hf1 & Hlog1).
    change (inventory (db w0)) with (inventory (db w)) in E1, Hlog1.
    rewrite E1.
    pose proof (for_mappings_inv _ _ _ _ _ E1) as (_ & _ & Hsame & _ & _ & Hout).
    change (inventory (db w0)) with (inventory (db w)) in Hout.
    destruct (deduct_line item _ (inventory (db w))) as [inv1|] eqn:El.
    + injection Hout as Hinv1.
      assert (Hmap : menu_inventory_mapping (db w1) = menu_inventory_mapping (db w))
        by (rewrite Hsame; reflexivity).
      destruct (IH w1 Hf1) as (w' & E' & Hf' & Hlog').
      rewrite Hmap, <- Hinv1 in E', Hlog'.
      exists w'. split; [exact E'|]. split; [exact Hf'|].
      rewrite Hlog', Hlog1. simpl. rewrite map_app, <- !app_assoc. reflexivity.
    + exists w1. split; [reflexivity|]. split; [exact Hf1|].
      rewrite Hlog1. simpl. rewrite app_nil_r, <- app_assoc. reflexivity.
Qed.

(** ** The handler on a healthy connection, out of stock *)

Lemma order_exists_after_insert t o :
  order_exists (set_orders t (orders t ++ [o])) (ord_id o) = true.
Proof.
  unfold order_exists. simpl. rewrite existsb_app. simpl.
  rewrite Z.eqb_refl. apply orb_true_r.
Qed.

Lemma foreign_keys_hold t o its :
  lines_on_menu t its = true ->
  forallb (fun '(order_id, menu_item, _, _) =>
             order_exists (set_orders t (orders t ++ [o])) order_id &&
             menu_item_exists (set_orders t (orders t ++ [o])) menu_item)
          (map (itemsData_row (ord_id o)) its) = true.
Proof.
  unfold lines_on_menu. induction its as [|l rest IH]; simpl; [reflexivity|].
  rewrite !andb_true_iff. intros [Hl Hrest].
  rewrite order_exists_after_insert. repeat split; auto.
Qed.

Lemma accepted_fields isEmail b :
  validationResult isEmail b = [] ->
  exists n p a l ls,
    customer_name b = Some n /\ customer_phone b = Some p /\
    total_amount b = Some a /\ items b = Some (l :: ls).
Proof.
  intros Hv. apply validationResult_nil in Hv as (Hn & Hp & _ & Ha & Hi).
  destruct (customer_name b) as [n|]; [|discriminate].
  destruct (customer_phone b) as [p|]; [|discriminate].
  destruct (total_amount b) as [a|]; [|discriminate].
  destruct (items b) as [[|l ls]|]; try discriminate.
  exists n, p, a, l, ls. auto.
Qed.

Lemma try_block_out_of_stock isEmail b w its :
  faults w = [] ->
  validationResult isEmail b = [] ->
  items b = Some its ->
  lines_on_menu (db w) its = true ->
  deduct_lines (menu_inventory_mapping (db w)) its (inventory (db w)) = None ->
  exists w',
    try_block b w = (Rejected "Insufficient inventory", w') /\
    log w' = log w ++
      map EvQuery
        (InsertOrder (customer_name b) (customer_phone b) (customer_email b)
                     (total_amount b) (payment_method b) ::
         InsertOrderItems (map (itemsData_row (orders_auto_increment w)) its) ::
         deduction_queries (menu_inventory_mapping (db w)) its
                           (inventory (db w))).
Proof.
  intros Hf Hv Hits Hmenu Hnone.
  destruct (accepted_fields isEmail b Hv) as (n & p & a & l & ls & Hn & Hp & Ha & Hits').
  rewrite Hits in Hits'. injection Hits' as ->.
  unfold try_block, bind.
  rewrite db_query_healthy by assumption.
  rewrite Hn, Hp, Ha. simpl run_query. cbv iota beta.
  set (o := {| ord_id := orders_auto_increment w |}).
  set (w1 := set_auto_increment _ _). simpl insertId.
  unfold items_of. rewrite Hits.
  rewrite db_query_healthy by exact Hf.
  pose proof (foreign_keys_hold (db w) o (l :: ls) Hmenu) as Hfk.
  change (ord_id o) with (orders_auto_increment w) in Hfk.
  change (db w1) with (set_orders (db w) (orders (db w) ++ [o])).
  unfold run_query.
  destruct (map (itemsData_row (orders_auto_increment w)) (l :: ls))
    as [|row rows] eqn:Erows; [discriminate Erows|].
  rewrite Hfk. cbv iota beta. rewrite <- Erows.
  set (w2 := set_auto_increment _ _).
  assert (Hf2 : faults w2 = []) by exact Hf.
  destruct (for_items_healthy (l :: ls) w2 Hf2) as (w' & E & _ & Hlog).
  change (menu_inventory_mapping (db w2)) with (menu_inventory_mapping (db w))
    in E, Hlog.
  change (inventory (db w2)) with (inventory (db w)) in E, Hlog.
  rewrite Hnone in E. rewrite E. exists w'. split; [reflexivity|].
  rewrite Hlog. unfold w2, w1. simpl. rewrite <- !app_assoc. reflexivity.
Qed.

(** On a healthy connection, an accepted request for dishes on the menu
    that cannot be served is answered 500 with the fixed message of the
    rejected update; nothing follows the failed update but the rollback,
    and the tables are as before. *)
Lemma handler_out_of_stock isEmail b w its :
  faults w = [] ->
  validationResult isEmail b = [] ->
  items b = Some its ->
  lines_on_menu (db w) its = true ->
  deduct_lines (menu_inventory_mapping (db w)) its (inventory (db w)) = None ->
  exists w',
    post_api_orders isEmail b w
      = (error_response 500 "Insufficient inventory", w') /\
    db w' = db w /\
    log w' = log w ++
      EvBeginTransaction ::
      map EvQuery
        (InsertOrder (customer_name b) (customer_phone b) (customer_email b)
                     (total_amount b) (payment_method b) ::
         InsertOrderItems (map (itemsData_row (orders_auto_increment w)) its) ::
         deduction_queries (menu_inventory_mapping (db w)) its
                           (inventory (db w))) ++
      [EvRollback].
Proof.
  intros Hf Hv Hits Hmenu Hnone.
  destruct (post_api_orders isEmail b w) as [resp w'] eqn:E.
  pose proof E as E0. unfold post_api_orders in E. rewrite Hv in E.
  unfold db_beginTransaction, next_fault in E. simpl in E. rewrite Hf in E.
  set (w1 := set_txn _ _) in E.
  destruct (try_block_out_of_stock isEmail b w1 its Hf Hv Hits Hmenu Hnone)
    as (w2 & Et & Hlog2).
  rewrite Et in E. injection E as <- <-.
  exists (db_rollback w2). split; [reflexivity|]. split.
  - apply post_api_orders_outcome in E0
      as [(Hne & _) | [(_ & _ & Hdb) | (_ & orderId & [=] & _)]];
      [contradiction | exact Hdb].
  - rewrite db_rollback_log, Hlog2. unfold w1. simpl.
    rewrite <- !app_assoc. reflexivity.
Qed.

(** X20. On a healthy connection the inventory loop goes line by line in
    the order of the request and mapping by mapping: it resolves exactly
    when every conditional update, with the product [times] computes as
    decrement and as bound, affects its row in turn, and then the
    inventory is the one those updates leave; else it rejects with the
    insufficient-inventory error. The statements it sends are, per line,
    the lookup of the line's mappings and then one conditional update per
    mapping, and none after the first update that affects no row. A line
    whose menu item has no mapping resolves and leaves the tables alone.
    In the handler, run with no other request between its calls, the
    rejection is followed by the rollback and nothing else, and is
    answered 500. *)
Theorem deduction_loop_follows_request its w :
  faults w = [] ->
  (exists w',
     for_items its w =
       (match deduct_lines (menu_inventory_mapping (db w)) its
                           (inventory (db w)) with
        | Some _ => Resolved tt
        | None => Rejected "Insufficient inventory"
        end, w') /\
     log w' = log w ++
              map EvQuery (deduction_queries (menu_inventory_mapping (db w))
                                             its (inventory (db w))) /\
     same_but_inventory (db w) (db w') /\
     forall inv',
       deduct_lines (menu_inventory_mapping (db w)) its (inventory (db w))
         = Some inv' ->
       inventory (db w') = inv') /\
  (forall item,
     mappings_for (menu_inventory_mapping (db w)) (menu_item_id item) = [] ->
     exists w',
       for_items [item] w = (Resolved tt, w') /\ db w' = db w /\
       log w' = log w ++ [EvQuery (SelectMappings (menu_item_id item))]) /\
  (forall isEmail b,
     validationResult isEmail b = [] ->
     items b = Some its ->
     lines_on_menu (db w) its = true ->
     deduct_lines (menu_inventory_mapping (db w)) its (inventory (db w)) = None ->
     exists w',
       post_api_orders isEmail b w
         = (error_response 500 "Insufficient inventory", w') /\
       db w' = db w /\
       log w' = log w ++
         EvBeginTransaction ::
         map EvQuery
           (InsertOrder (customer_name b) (customer_phone b) (customer_email b)
                        (total_amount b) (payment_method b) ::
            InsertOrderItems (map (itemsData_row (orders_auto_increment w)) its) ::
            deduction_queries (menu_inventory_mapping (db w)) its
                              (inventory (db w))) ++
         [EvRollback]).
Proof.
  intros Hf. split; [|split].
  - destruct (for_items_healthy its w Hf) as (w' & E & _ & Hlog).
    exists w'. split; [exact E|]. split; [exact Hlog|].
    apply for_items_inv in E as (_ & _ & Hsame & _ & _ & Hout).
    split; [exact Hsame|]. intros inv' Hd. rewrite Hd in Hout.
    specialize (Hout tt eq_refl). congruence.
  - intros item Hnone.
    destruct (for_items_healthy [item] w Hf) as (w' & E & _ & Hlog).
    pose proof (for_items_inv _ _ _ _ E) as (_ & _ & Hsame & _ & _ & Hout).
    simpl deduct_lines in E, Hout. simpl deduction_queries in Hlog.
    rewrite Hnone in E, Hlog, Hout. simpl in E, Hlog, Hout.
    exists w'. split; [exact E|]. split; [|exact Hlog].
    specialize (Hout tt eq_refl). injection Hout as Hinv.
    rewrite Hsame, <- Hinv. apply set_inventory_same.
  - intros isEmail b. apply handler_out_of_stock. exact Hf.
Qed.

Lemma deduction_loop_follows_request_witness :
  faults sample_world = [] /\
  exists w',
    for_items [ {| menu_item_id := 1; quantity := 2; price := 25000 |} ]
              sample_world = (Resolved tt, w') /\
    log w' = map EvQuery [ SelectMappings 1;
                           UpdateInventory (times 20 2) 1 (times 20 2);
                           UpdateInventory (times 10 2) 2 (times 10 2);
                           UpdateInventory (times 10 2) 3 (times 10 2) ] /\
    inv_quantity <$> inventory (db w') !! 1 = Some 4960.
Proof.
  split; [reflexivity|].
  destruct (deduction_loop_follows_request
              [ {| menu_item_id := 1; quantity := 2; price := 25000 |} ]
              sample_world eq_refl) as ((w' & E & Hlog & _ & Hinv) & _).
  exists w'. split; [exact E|]. split; [exact Hlog|].
  assert (Hd : exists inv',
             deduct_lines (menu_inventory_mapping (db sample_world))
               [ {| menu_item_id := 1; quantity := 2; price := 25000 |} ]
               (inventory (db sample_world)) = Some inv' /\
             inv_quantity <$> inv' !! 1 = Some 4960)
    by (eexists; split; vm_compute; reflexivity).
  destruct Hd as (inv' & Hd & Hq). rewrite (Hinv _ Hd). exact Hq.
Defined.

(** C3, on the code. The sample store with 0.60 kg of flour, and a
    request for three pizzas at 0.20 kg of flour each. By the deduction
    step of the specification the request is served: the stock is at
    least 0.20 x 3 = 0.60, and the decrements leave no flour, 19.70 kg of
    cheese and 29.70 kg of tomato. The handler multiplies in floating
    point and binds 0.6000000000000001 as decrement and as bound; the
    flour update affects no row, and the request is answered 500
    'Insufficient inventory' with the tables as they were. Where the
    stock is larger the same request is served, and the rows then hold
    what the specification says. *)
Theorem covered_order_is_refused :
  inv_quantity <$> inventory (db flour_for_three_world) !! 1 = Some 60 /\
  mappings_for sample_mapping 1
    = [ {| inventory_item_id := 1; quantity_required := 20 |};
        {| inventory_item_id := 2; quantity_required := 10 |};
        {| inventory_item_id := 3; quantity_required := 10 |} ] /\
  specified_lines sample_mapping
    [ {| menu_item_id := 1; quantity := 3; price := 25000 |} ]
    (inventory (db flour_for_three_world))
    = Some (with_stock (with_stock (with_stock sample_inventory 1 0) 2 1970)
                       3 2970) /\
  literal (times 20 3) = SqlDecimal 6000000000000001 (-16) /\
  post_api_orders simple_isEmail three_pizzas_body flour_for_three_world
    = (error_response 500 "Insufficient inventory",
       {| db := db flour_for_three_world; txn := None;
          orders_auto_increment := 2; faults := [];
          log := [ EvBeginTransaction;
                   EvQuery (InsertOrder (Some "A") (Some "123")
                                        (Some "a@example.org") (Some 75000)
                                        (Some "cash"));
                   EvQuery (InsertOrderItems [ (1, 1, 3, 25000) ]);
                   EvQuery (SelectMappings 1);
                   EvQuery (UpdateInventory (times 20 3) 1 (times 20 3));
                   EvRollback ] |}) /\
  status (post_api_orders simple_isEmail three_pizzas_body sample_world).1
    = 201 /\
  Some (inventory
          (db (post_api_orders simple_isEmail three_pizzas_body
                               sample_world).2))
    = specified_lines sample_mapping
        [ {| menu_item_id := 1; quantity := 3; price := 25000 |} ]
        sample_inventory.
Proof. vm_compute. repeat split; reflexivity. Qed.

(** ** The error of an exhausted ingredient *)

Lemma exhausted_in_line_spec line mappings : forall inv,
  deduct_line line mappings inv = None <->
  exists id, exhausted_in_line line mappings inv = Some id.
Proof.
  induction mappings as [|m rest IH]; simpl; intros inv.
  - split; [discriminate | intros [id [=]]].
  - destruct (conditional_decrement inv _ _); [apply IH|].
    split; eauto.
Qed.

(** The deduction step fails exactly when it has a first exhausted
    ingredient. *)
Lemma first_exhausted_spec table lines : forall inv,
  deduct_lines table lines inv = None <->
  exists id, first_exhausted table lines inv = Some id.
Proof.
  induction lines as [|l rest IH]; simpl; intros inv.
  - split; [discriminate | intros [id [=]]].
  - destruct (deduct_line l _ inv) eqn:El; [apply IH|].
    split; [intros _ | reflexivity]. now apply exhausted_in_line_spec.
Qed.

(** C8, as stated, fails: the same request fails on flour (item 1) in one
    store and on cheese (item 2) in another, and the two responses are the
    same, so the response does not tell which ingredient ran out. *)
Lemma out_of_stock_response_is_anonymous :
  first_exhausted sample_mapping
    [ {| menu_item_id := 1; quantity := 2; price := 25000 |} ]
    (inventory (db flour_short_world)) = Some 1 /\
  first_exhausted sample_mapping
    [ {| menu_item_id := 1; quantity := 2; price := 25000 |} ]
    (inventory (db cheese_short_world)) = Some 2 /\
  (post_api_orders simple_isEmail sample_body flour_short_world).1
  = (post_api_orders simple_isEmail sample_body cheese_short_world).1 /\
  (post_api_orders simple_isEmail sample_body flour_short_world).1
  = error_response 500 "Insufficient inventory".
Proof. vm_compute. repeat split; reflexivity. Qed.

(** C8, amended. When a placement (accepted request, dishes on the menu,
    healthy connection) fails for insufficient stock, whichever the first
    exhausted ingredient is, the response is status 500 with the fixed
    message 'Insufficient inventory'. *)
Theorem out_of_stock_response_is_fixed isEmail b w its id :
  faults w = [] ->
  validationResult isEmail b = [] ->
  items b = Some its ->
  lines_on_menu (db w) its = true ->
  first_exhausted (menu_inventory_mapping (db w)) its (inventory (db w))
    = Some id ->
  (post_api_orders isEmail b w).1 = error_response 500 "Insufficient inventory".
Proof.
  intros Hf Hv Hits Hmenu Hex.
  assert (Hnone : deduct_lines (menu_inventory_mapping (db w)) its
                               (inventory (db w)) = None)
    by (apply first_exhausted_spec; eauto).
  destruct (handler_out_of_stock isEmail b w its Hf Hv Hits Hmenu Hnone)
    as (w' & -> & _). reflexivity.
Qed.

Lemma out_of_stock_response_is_fixed_witness :
  first_exhausted (menu_inventory_mapping (db cheese_short_world))
    [ {| menu_item_id := 1; quantity := 2; price := 25000 |} ]
    (inventory (db cheese_short_world)) = Some 2 /\
  (post_api_orders simple_isEmail sample_body cheese_short_world).1
  = error_response 500 "Insufficient inventory".
Proof.
  split; [vm_compute; reflexivity|].
  apply (out_of_stock_response_is_fixed simple_isEmail sample_body
           cheese_short_world
           [ {| menu_item_id := 1; quantity := 2; price := 25000 |} ] 2);
    vm_compute; reflexivity.
Defined.

(** ** Money totals of a placed order *)







(** ** The confirmation mail *)

(** Whatever the driver reports: a handler run whose [try] block is cut
    short sends no mail, and a run that goes through it sends the mail of
    the [if (customer_email)] block and nothing else, after the last
    statement and before [COMMIT]. *)
Lemma mail_precedes_commit isEmail b w :
  validationResult isEmail b = [] ->
  exists qs,
    log (post_api_orders isEmail b w).2 =
      log w ++ EvBeginTransaction :: map EvQuery qs \/
    log (post_api_orders isEmail b w).2 =
      log w ++ EvBeginTransaction :: map EvQuery qs ++ [EvRollback] \/
    exists orderId tail,
      (tail = [] \/ tail = [EvRollback]) /\
      log (post_api_orders isEmail b w).2 =
        log w ++ EvBeginTransaction :: map EvQuery qs ++
        mails_of b orderId (default [] (items b)) ++ EvCommit :: tail.
Proof.
  intros Hv. unfold post_api_orders. rewrite Hv.
  destruct (db_beginTransaction w) as [o w1] eqn:Eb.
  apply db_beginTransaction_inv in Eb as (Hdb1 & Hlog1 & Hai1 & Htxn1).
  destruct o as [err|]; simpl.
  { exists []. left. exact Hlog1. }
  destruct (try_block b w1) as [[orderId|message] w2] eqn:Et;
    apply try_block_inv in Et as (_ & _ & Hout).
  - destruct Hout as [_ (qs & Hlog2)]. exists qs. right. right.
    destruct (db_commit w2) as [o w3] eqn:Ec.
    apply db_commit_inv in Ec as (_ & Hlog3 & _).
    exists orderId. destruct o; simpl.
    + exists [EvRollback]. split; [now right|].
      rewrite db_rollback_log, Hlog3, Hlog2, Hlog1, <- !app_assoc. reflexivity.
    + exists []. split; [now left|].
      rewrite Hlog3, Hlog2, Hlog1, <- !app_assoc. reflexivity.
  - destruct Hout as (qs & Hlog2). exists qs. right. left. simpl.
    rewrite db_rollback_log, Hlog2, Hlog1, <- !app_assoc. reflexivity.
Qed.

(** C5, on the code. The scenario's request with a customer e-mail, on a
    connection that is lost at the commit: the handler answers 500, the
    tables are rolled back to what they were, and the log shows the
    confirmation mail handed to the transporter after the last insert and
    before [COMMIT]. On the healthy connection the order is the same:
    the mail goes out before the commit, not after it. *)
Theorem confirmation_sent_before_commit :
  (post_api_orders simple_isEmail sample_body commit_failing_world).1
    = error_response 500 "Transaction commit failed" /\
  db (post_api_orders simple_isEmail sample_body commit_failing_world).2
    = db commit_failing_world /\
  drop 8 (log (post_api_orders simple_isEmail sample_body
                               commit_failing_world).2)
    = [ EvSendEmail (confirmation_mail sample_body 1
                       [ {| menu_item_id := 1; quantity := 2; price := 25000 |} ]
                       "a@example.org");
        EvCommit; EvRollback ] /\
  drop 8 (log (post_api_orders simple_isEmail sample_body sample_world).2)
    = [ EvSendEmail (confirmation_mail sample_body 1
                       [ {| menu_item_id := 1; quantity := 2; price := 25000 |} ]
                       "a@example.org");
        EvCommit ].
Proof. vm_compute. repeat split; reflexivity. Qed.

(** ** The handler, call by call *)

Lemma run_alone_for_mappings item mappings next : forall w,
  run_alone (for_mappings_then item mappings next) w =
    match for_mappings item mappings w with
    | (Resolved _, w') => run_alone next w'
    | (Rejected message, w') => run_alone (catch_block message) w'
    end.
Proof.
  induction mappings as [|m rest IH]; intros w; [reflexivity|].
  simpl. unfold bind, decrement_inventory.
  destruct (db_query _ w) as [[result|e] w1]; [|reflexivity].
  destruct (affectedRows result =? 0); [reflexivity|]. apply IH.
Qed.

Lemma run_alone_for_items its next : forall w,
  run_alone (for_items_then its next) w =
    match for_items its w with
    | (Resolved _, w') => run_alone next w'
    | (Rejected message, w') => run_alone (catch_block message) w'
    end.
Proof.
  induction its as [|item rest IH]; intros w; [reflexivity|].
  simpl. unfold bind.
  destruct (db_query _ w) as [[mappings|e] w1]; [|reflexivity].
  rewrite run_alone_for_mappings.
  destruct (for_mappings item (rows mappings) w1) as [[u|e] w2]; [|reflexivity].
  apply IH.
Qed.

Lemma run_alone_notify b orderId its next w :
  run_alone (notify_then b orderId its next) w =
    run_alone next (notify b orderId its w).2.
Proof.
  unfold notify_then, notify. destruct (customer_email b) as [to|]; [|reflexivity].
  destruct (truthy (Some to)); reflexivity.
Qed.

Lemma run_alone_try_block b w :
  run_alone (try_block_request b) w =
    match try_block b w with
    | (Resolved orderId, w') => run_alone (commit_then orderId) w'
    | (Rejected message, w') => run_alone (catch_block message) w'
    end.
Proof.
  unfold try_block_request, try_block, bind, items_of. simpl.
  destruct (db_query _ w) as [[orderResult|e] w1]; [|reflexivity].
  destruct (items b) as [its|]; [|reflexivity]. simpl.
  destruct (db_query _ w1) as [[r2|e] w2]; [|reflexivity].
  rewrite run_alone_for_items.
  destruct (for_items its w2) as [[u|e] w3]; [|reflexivity]. simpl.
  destruct (db_query _ w3) as [[r4|e] w4]; [|reflexivity].
  rewrite run_alone_notify, notify_spec. reflexivity.
Qed.

(** Run with no other request in between, the request is answered as the
    handler answers it. *)
Lemma run_alone_handler isEmail b w :
  run_alone (post_api_orders_request isEmail b) w = post_api_orders isEmail b w.
Proof.
  unfold post_api_orders_request, post_api_orders.
  destruct (validationResult isEmail b); [|reflexivity]. simpl.
  destruct (db_beginTransaction w) as [[err|] w1]; [reflexivity|].
  rewrite run_alone_try_block.
  destruct (try_block b w1) as [[orderId|message] w2]; [|reflexivity].
  simpl. destruct (db_commit w2) as [[err|] w3]; reflexivity.
Qed.

(** Given every turn, a request runs as it does alone. *)
Lemma serve_alone t : forall w,
  exists n, serve (replicate n 0%nat) [t] w
            = ([Responded (run_alone t w).1], (run_alone t w).2).
Proof.
  induction t as [r | k IH | q k IH | k IH | k IH | m k IH]; intros w.
  - exists 0%nat. reflexivity.
  - simpl. destruct (db_beginTransaction w) as [err w1] eqn:E.
    destruct (IH err w1) as (n & Hn). exists (S n). simpl. rewrite E. exact Hn.
  - simpl. destruct (db_query q w) as [res w1] eqn:E.
    destruct (IH res w1) as (n & Hn). exists (S n). simpl. rewrite E. exact Hn.
  - simpl. destruct (db_commit w) as [err w1] eqn:E.
    destruct (IH err w1) as (n & Hn). exists (S n). simpl. rewrite E. exact Hn.
  - destruct (IH (db_rollback w)) as (n & Hn). exists (S n). exact Hn.
  - destruct (IH (emit (EvSendEmail m) w)) as (n & Hn). exists (S n). exact Hn.
Qed.

(** ** Requests taking turns on the connection *)

Lemma run_query_guarded q t n r t' n' :
  guarded_query q ->
  run_query q t n = inr (r, t', n') ->
  no_new_negative (inventory t) (inventory t').
Proof.
  intros Hg H. destruct q; simpl in *.
  - destruct name, phone, total; inversion H; subst. apply no_new_negative_refl.
  - destruct itemsData; [discriminate|].
    destruct (forallb _ _); inversion H; subst. apply no_new_negative_refl.
  - inversion H; subst. apply no_new_negative_refl.
  - subst bound.
    pose proof (update_inventory_row_spec (inventory t) id decrement) as Hs.
    destruct (update_inventory_row (inventory t) decrement id decrement)
      as [err|[inv1 n1]]; [discriminate|].
    inversion H; subst; simpl.
    destruct (conditional_decrement (inventory t) id decrement) eqn:Ec;
      destruct Hs as [-> ->].
    + eapply conditional_decrement_guard; eassumption.
    + apply no_new_negative_refl.
  - destruct amount, method; try discriminate.
    destruct (order_exists t orderId); inversion H; subst.
    apply no_new_negative_refl.
Qed.

Lemma db_query_stock_safe inv0 q w :
  guarded_query q -> stock_safe inv0 w -> stock_safe inv0 (db_query q w).2.
Proof.
  intros Hg [Hdb Htxn]. destruct (db_query q w) as [out w'] eqn:E. simpl.
  apply db_query_inv in E as (Htx & _ & Hcase). unfold stock_safe. rewrite Htx.
  split; [|exact Htxn].
  destruct Hcase as [(e & _ & -> & _) | (r & _ & Hrun)]; [exact Hdb|].
  eapply no_new_negative_trans; [exact Hdb|].
  eapply run_query_guarded; eassumption.
Qed.

Lemma resume_guarded t w : guarded t -> guarded (resume t w).1.
Proof.
  intros Hg. destruct Hg; simpl; auto using guarded.
  - destruct (db_beginTransaction w); simpl; auto.
  - destruct (db_query q w); simpl; auto.
  - destruct (db_commit w); simpl; auto.
Qed.

Lemma resume_stock_safe inv0 t w :
  guarded t -> stock_safe inv0 w -> stock_safe inv0 (resume t w).2.
Proof.
  intros Hg Hs. destruct Hg; simpl; auto.
  - destruct (db_beginTransaction w) as [o w1] eqn:E. simpl.
    pose proof E as E'. apply db_beginTransaction_inv in E' as (Hdb & _ & _ & _).
    destruct Hs as [Hs1 Hs2]. split; [now rewrite Hdb|].
    unfold db_beginTransaction in E.
    destruct (next_fault_spec (emit EvBeginTransaction w)) as (Hd & Ht & _).
    destruct (next_fault (emit EvBeginTransaction w)) as [[err|] w0];
      inversion E; subst; simpl in *.
    + rewrite Ht. exact Hs2.
    + intros t [= <-]. now rewrite Hd.
  - pose proof (db_query_stock_safe inv0 q w H Hs) as Hq.
    destruct (db_query q w); exact Hq.
  - destruct (db_commit w) as [o w1] eqn:E. simpl.
    pose proof E as E'. apply db_commit_inv in E' as (Hdb & _ & _).
    destruct Hs as [Hs1 Hs2]. split; [now rewrite Hdb|].
    unfold db_commit in E.
    destruct (next_fault_spec (emit EvCommit w)) as (Hd & Ht & _).
    destruct (next_fault (emit EvCommit w)) as [[err|] w0];
      inversion E; subst; simpl in *.
    + rewrite Ht. exact Hs2.
    + discriminate.
  - destruct Hs as [Hs1 Hs2]. unfold db_rollback. simpl.
    destruct (txn w) as [t|] eqn:Et; simpl.
    + split; [apply Hs2; reflexivity | discriminate].
    + split; [exact Hs1 | simpl; rewrite Et; discriminate].
Qed.

Lemma for_mappings_then_guarded item mappings next :
  guarded next -> guarded (for_mappings_then item mappings next).
Proof.
  intros Hn. induction mappings as [|m rest IH]; simpl; [exact Hn|].
  constructor; [reflexivity|]. intros [result|e]; [|repeat constructor].
  destruct (affectedRows result =? 0); [repeat constructor | exact IH].
Qed.

Lemma for_items_then_guarded its next :
  guarded next -> guarded (for_items_then its next).
Proof.
  intros Hn. induction its as [|item rest IH]; simpl; [exact Hn|].
  constructor; [exact I|]. intros [mappings|e]; [|repeat constructor].
  now apply for_mappings_then_guarded.
Qed.

(** The handler sends guarded statements only. *)
Lemma handler_request_guarded isEmail b : guarded (post_api_orders_request isEmail b).
Proof.
  unfold post_api_orders_request.
  destruct (validationResult isEmail b); [|constructor].
  constructor. intros [err|]; [constructor|].
  unfold try_block_request. constructor; [exact I|].
  intros [orderResult|e]; [|repeat constructor].
  destruct (items b) as [its|]; [|repeat constructor].
  constructor; [exact I|]. intros [r|e]; [|repeat constructor].
  apply for_items_then_guarded. constructor; [exact I|].
  intros [r'|e]; [|repeat constructor].
  assert (Hc : guarded (commit_then (insertId orderResult))).
  { constructor. intros [err|]; repeat constructor. }
  unfold notify_then. destruct (customer_email b) as [to|]; [|exact Hc].
  destruct (truthy (Some to)); [constructor|]; exact Hc.
Qed.

(** However the requests in flight take turns on the connection, and
    whatever the driver reports, no inventory row ends with a negative
    quantity that it did not hold from the start. *)
Lemma serve_stock_safe inv0 schedule : forall ts w,
  Forall guarded ts -> stock_safe inv0 w ->
  stock_safe inv0 (serve schedule ts w).2.
Proof.
  induction schedule as [|i rest IH]; intros ts w Hg Hs; simpl; [exact Hs|].
  destruct (ts !! i) as [t|] eqn:Ei; [|now apply IH].
  assert (Ht : guarded t) by (eapply Forall_lookup_1; eassumption).
  pose proof (resume_guarded t w Ht) as Hg'.
  pose proof (resume_stock_safe inv0 t w Ht Hs) as Hs'.
  destruct (resume t w) as [t' w']. apply IH; [|exact Hs'].
  apply Forall_insert; assumption.
Qed.

Lemma stock_safe_start w :
  txn w = None -> stock_safe (inventory (db w)) w.
Proof.
  intros Ht. split; [apply no_new_negative_refl|]. rewrite Ht. discriminate.
Qed.

(** C2. Going through the handler, whatever its outcome, an inventory row
    either stays exactly the row it was or ends with a quantity of at
    least zero. The same holds for the [try] block alone under every
    script of driver errors, that is at every point where a placement can
    be cut short, before any rollback; and it holds for any number of
    placements in flight on the connection, however they take turns. *)
Theorem placement_makes_no_quantity_negative isEmail b w :
  no_new_negative (inventory (db w))
                  (inventory (db (post_api_orders isEmail b w).2)) /\
  no_new_negative (inventory (db w)) (inventory (db (try_block b w).2)) /\
  (forall schedule bodies,
     txn w = None ->
     no_new_negative
       (inventory (db w))
       (inventory (db (serve schedule
                             (map (post_api_orders_request isEmail) bodies) w).2))).
Proof.
  split; [|split].
  - apply handler_no_new_negative.
  - destruct (try_block b w) as [out w'] eqn:E. simpl.
    apply try_block_inv in E as (_ & Hnn & _). exact Hnn.
  - intros schedule bodies Ht.
    apply (serve_stock_safe (inventory (db w)) schedule).
    + apply Forall_forall. intros t Hin. apply list_elem_of_fmap in Hin as (b' & -> & _).
      apply handler_request_guarded.
    + now apply stock_safe_start.
Qed.

(** C10, on the code. Two requests for two pizzas each, with flour left
    for one of them, take turns on the server's one connection from the
    start. The second START TRANSACTION closes the first request's
    transaction; the second request's update finds no flour and its
    ROLLBACK takes back the first request's order row and decrements made
    since; the first request's last decrement then goes through on its own
    and its payment insert fails on the missing order. Both requests are
    answered 500, no order is stored, and 0.2 kg of tomato is gone. When
    the requests do not interleave, the first is answered 201 and the
    second 500. *)
Theorem interleaved_placements_both_fail :
  response_of <$>
    (serve alternating
           [ post_api_orders_request simple_isEmail sample_body;
             post_api_orders_request simple_isEmail sample_body ]
           last_flour_world).1
  = [ Some (error_response 500
              "Cannot add or update a child row: a foreign key constraint fails");
      Some (error_response 500 "Insufficient inventory") ] /\
  orders (db (serve alternating
                    [ post_api_orders_request simple_isEmail sample_body;
                      post_api_orders_request simple_isEmail sample_body ]
                    last_flour_world).2) = [] /\
  inv_quantity <$>
    inventory (db (serve alternating
                         [ post_api_orders_request simple_isEmail sample_body;
                           post_api_orders_request simple_isEmail sample_body ]
                         last_flour_world).2)
  = list_to_map [ (1, 40); (2, 2000); (3, 2980); (4, 1500); (5, 1000);
                  (6, 2500) ] /\
  status <$>
    omap response_of
      (serve (replicate 11 0%nat ++ replicate 11 1%nat)
             [ post_api_orders_request simple_isEmail sample_body;
               post_api_orders_request simple_isEmail sample_body ]
             last_flour_world).1
  = [201; 500].
Proof. vm_compute. repeat split; reflexivity. Qed.

(** C1, on the code. The sample store with 0.1 kg of tomato, and two
    requests whose calls on the server's one connection alternate from the
    start: the first for two pizzas, which the tomato does not allow, the
    second for a salad. The first request stores its order and its
    order_items row and takes the flour and the cheese; its tomato update
    affects no row. Before its ROLLBACK is carried out, the second
    request's COMMIT makes all that is on the connection permanent; the
    ROLLBACK then finds no transaction open, and the first request is
    answered 500 'Insufficient inventory'. The store afterwards holds the
    failed request's orders row and order_items row, and 0.4 kg of flour
    and 0.2 kg of cheese are gone. Run alone, the request gets the same
    answer and leaves the tables as they were. *)
Theorem failed_placement_leaves_rows_behind :
  response_of <$>
    (serve turn_about
           [ post_api_orders_request simple_isEmail sample_body;
             post_api_orders_request simple_isEmail salad_body ]
           tomato_short_world).1
  = [ Some (error_response 500 "Insufficient inventory");
      Some {| status := 201;
              body := CreatedBody "Order created successfully" 2 |} ] /\
  orders (db (serve turn_about
                    [ post_api_orders_request simple_isEmail sample_body;
                      post_api_orders_request simple_isEmail salad_body ]
                    tomato_short_world).2)
  = [ order_row 1 "A" "123" (Some "a@example.org") 50000 (Some "cash");
      order_row 2 "B" "456" None 15000 (Some "card") ] /\
  order_items (db (serve turn_about
                    [ post_api_orders_request simple_isEmail sample_body;
                      post_api_orders_request simple_isEmail salad_body ]
                    tomato_short_world).2)
  = [ {| oi_order_id := 1; oi_menu_item_id := 1; oi_quantity := 2;
         oi_price := 25000 |};
      {| oi_order_id := 2; oi_menu_item_id := 2; oi_quantity := 1;
         oi_price := 15000 |} ] /\
  payments (db (serve turn_about
                    [ post_api_orders_request simple_isEmail sample_body;
                      post_api_orders_request simple_isEmail salad_body ]
                    tomato_short_world).2)
  = [ payment_row 2 15000 "card" ] /\
  inv_quantity <$>
    inventory (db (serve turn_about
                    [ post_api_orders_request simple_isEmail sample_body;
                      post_api_orders_request simple_isEmail salad_body ]
                    tomato_short_world).2)
  = list_to_map [ (1, 4960); (2, 1980); (3, 10); (4, 1480); (5, 1000);
                  (6, 2500) ] /\
  inv_quantity <$> inventory (db tomato_short_world)
  = list_to_map [ (1, 5000); (2, 2000); (3, 10); (4, 1500); (5, 1000);
                  (6, 2500) ] /\
  drop 12 (log (serve turn_about
                    [ post_api_orders_request simple_isEmail sample_body;
                      post_api_orders_request simple_isEmail salad_body ]
                    tomato_short_world).2)
  = [ EvQuery (UpdateInventory (times 10 2) 3 (times 10 2));
      EvCommit; EvRollback ] /\
  (post_api_orders simple_isEmail sample_body tomato_short_world).1
  = error_response 500 "Insufficient inventory" /\
  db (post_api_orders simple_isEmail sample_body tomato_short_world).2
  = db tomato_short_world.
Proof. vm_compute. repeat split; reflexivity. Qed.

(** C7, on the code. The same store and the same two requests, the salad
    now ordered with an e-mail address. The salad's order, order_items row,
    lettuce decrement and payments row are in place and its confirmation
    mail is on its way when the first request's ROLLBACK arrives and takes
    all of it back; its COMMIT then goes through on nothing, and it is
    answered 201 with order number 2. The store afterwards is the store
    before: no orders row, no order_items row and no payments row for the
    order the response and the mail announce. *)
Theorem created_order_is_not_stored :
  response_of <$>
    (serve turn_about
           [ post_api_orders_request simple_isEmail sample_body;
             post_api_orders_request simple_isEmail salad_mail_body ]
           tomato_short_world).1
  = [ Some (error_response 500 "Insufficient inventory");
      Some {| status := 201;
              body := CreatedBody "Order created successfully" 2 |} ] /\
  db (serve turn_about
            [ post_api_orders_request simple_isEmail sample_body;
              post_api_orders_request simple_isEmail salad_mail_body ]
            tomato_short_world).2
  = db tomato_short_world /\
  orders (db tomato_short_world) = [] /\
  order_items (db tomato_short_world) = [] /\
  payments (db tomato_short_world) = [] /\
  txn (serve turn_about
             [ post_api_orders_request simple_isEmail sample_body;
               post_api_orders_request simple_isEmail salad_mail_body ]
             tomato_short_world).2 = None /\
  drop 11 (log (serve turn_about
                    [ post_api_orders_request simple_isEmail sample_body;
                      post_api_orders_request simple_isEmail salad_mail_body ]
                    tomato_short_world).2)
  = [ EvQuery (InsertPayment 2 (Some 15000) (Some "card"));
      EvQuery (UpdateInventory (times 10 2) 3 (times 10 2));
      EvSendEmail (confirmation_mail salad_mail_body 2
                     [ {| menu_item_id := 2; quantity := 1; price := 15000 |} ]
                     "b@example.org");
      EvRollback; EvCommit ] /\
  (post_api_orders simple_isEmail salad_mail_body tomato_short_world).1
  = {| status := 201; body := CreatedBody "Order created successfully" 1 |} /\
  orders (db (post_api_orders simple_isEmail salad_mail_body
                              tomato_short_world).2)
  = [ order_row 1 "B" "456" (Some "b@example.org") 15000 (Some "card") ].
Proof. vm_compute. repeat split; reflexivity. Qed.

(** * More of the order handler *)

(** ** Transactions and the order counter *)

Lemma db_rollback_txn w : txn (db_rollback w) = None.
Proof. unfold db_rollback. simpl. destruct (txn w) eqn:E; simpl; auto. Qed.

Lemma db_beginTransaction_failed w e w1 :
  db_beginTransaction w = (Some e, w1) -> txn w1 = txn w.
Proof.
  unfold db_beginTransaction. intros H.
  destruct (next_fault_spec (emit EvBeginTransaction w)) as (_ & Ht & _).
  destruct (next_fault (emit EvBeginTransaction w)) as [[err|] w0];
    inversion H; subst. exact Ht.
Qed.

Lemma db_commit_counter w o w3 :
  db_commit w = (o, w3) ->
  orders_auto_increment w3 = orders_auto_increment w /\
  (o = None -> txn w3 = None).
Proof.
  unfold db_commit. intros H.
  destruct (next_fault_spec (emit EvCommit w)) as (_ & _ & Hai & _).
  destruct (next_fault (emit EvCommit w)) as [[err|] w0];
    inversion H; subst; simpl in *; split; auto; discriminate.
Qed.

Lemma on_menu_after_insert t o its :
  forallb (fun '(order_id, menu_item, _, _) =>
             order_exists (set_orders t (orders t ++ [o])) order_id &&
             menu_item_exists (set_orders t (orders t ++ [o])) menu_item)
          (map (itemsData_row (ord_id o)) its) = true ->
  lines_on_menu t its = true.
Proof.
  unfold lines_on_menu. induction its as [|l rest IH]; simpl; [reflexivity|].
  rewrite !andb_true_iff. intros [[_ Hl] Hrest]. split; auto.
Qed.

(** A [try] block that resolves has taken one order number, and every
    requested line names a row of [menu_items]. *)
Lemma try_block_resolved b w orderId w' :
  try_block b w = (Resolved orderId, w') ->
  orders_auto_increment w' = orders_auto_increment w + 1 /\
  forall its, items b = Some its -> lines_on_menu (db w) its = true.
Proof.
  unfold try_block. intros H.
  bind_inv H; [|discriminate].
  pose proof E as E1. apply insert_order_inv in E1
    as (n & p & a & Hn & Hp & Ha & Hid & Hdb1 & _).
  apply db_query_inv in E as (_ & _ & [(e & [=] & _) | (r' & [= <-] & Hrun)]).
  simpl in Hrun. rewrite Hn, Hp, Ha in Hrun. injection Hrun as _ _ Hai1.
  bind_inv H; [|discriminate].
  unfold items_of in E. destruct (items b) as [its|] eqn:Eits; inversion E; subst r0 w0.
  clear E. bind_inv H; [|discriminate].
  pose proof E as E2. apply insert_order_items_inv in E2 as (_ & Hai2 & _).
  apply db_query_inv in E as (_ & _ & [(e & [=] & _) | (r' & [= <-] & Hrun)]).
  simpl in Hrun.
  destruct (map (itemsData_row (insertId r)) its) as [|row rows] eqn:Erows;
    [discriminate|].
  destruct (forallb _ (row :: rows)) eqn:Efk; [|discriminate]. clear Hrun.
  rewrite <- Erows, Hid, Hdb1 in Efk.
  bind_inv H; [|discriminate].
  apply for_items_inv in E as (_ & Hai3 & _).
  bind_inv H; [|discriminate].
  apply db_query_inv in E as (_ & _ & [(e & [=] & _) | (r' & [= <-] & Hrun)]).
  simpl in Hrun.
  destruct (total_amount b), (payment_method b); try discriminate.
  destruct (order_exists (db w2) (insertId r)); [|discriminate].
  injection Hrun as _ _ Hai4.
  rewrite notify_spec in H. unfold bind, ret in H. inversion H; subst. simpl.
  split; [lia|].
  intros its' [= <-].
  apply (on_menu_after_insert (db w)
           (order_row (orders_auto_increment w) n p (customer_email b) a
                      (Some s))).
  exact Efk.
Qed.

(** ** The handler on a healthy connection, served *)





(** ** What an answer of 201 tells *)

(** A run answered 201 went through its [try] block and its commit. *)
Lemma created_resolved isEmail b w resp w' :
  post_api_orders isEmail b w = (resp, w') ->
  status resp = 201 ->
  exists w1 w2 orderId,
    db w1 = db w /\ orders_auto_increment w1 = orders_auto_increment w /\
    try_block b w1 = (Resolved orderId, w2) /\
    body resp = CreatedBody "Order created successfully" orderId /\
    db w' = db w2 /\ orders_auto_increment w' = orders_auto_increment w2.
Proof.
  unfold post_api_orders. intros H Hst.
  destruct (validationResult isEmail b); [|inversion H; subst; discriminate].
  destruct (db_beginTransaction w) as [o w1] eqn:Eb.
  apply db_beginTransaction_inv in Eb as (Hdb1 & _ & Hai1 & _).
  destruct o; [inversion H; subst; discriminate|].
  destruct (try_block b w1) as [[orderId|message] w2] eqn:Et;
    [|inversion H; subst; discriminate].
  destruct (db_commit w2) as [o w3] eqn:Ec.
  pose proof (db_commit_counter _ _ _ Ec) as (Hai3 & _).
  apply db_commit_inv in Ec as (Hdb3 & _ & _).
  destruct o; inversion H; subst; [discriminate|].
  exists w1, w2, orderId. repeat split; assumption.
Qed.

(** A run answered 201 has committed: no transaction is left open and
    [COMMIT] is the last thing the handler sent. *)
Lemma created_committed isEmail b w resp w' :
  post_api_orders isEmail b w = (resp, w') ->
  status resp = 201 ->
  txn w' = None /\ last (log w') = Some EvCommit.
Proof.
  unfold post_api_orders. intros H Hst.
  destruct (validationResult isEmail b); [|inversion H; subst; discriminate].
  destruct (db_beginTransaction w) as [o w1].
  destruct o; [inversion H; subst; discriminate|].
  destruct (try_block b w1) as [[orderId|message] w2];
    [|inversion H; subst; discriminate].
  destruct (db_commit w2) as [o w3] eqn:Ec.
  pose proof (db_commit_counter _ _ _ Ec) as (_ & Ht).
  apply db_commit_inv in Ec as (_ & Hlog & _).
  destruct o; inversion H; subst; [discriminate|].
  split; [now apply Ht|]. rewrite Hlog. apply last_snoc.
Qed.

(** X21. When a placement that runs with no other request between its
    calls is answered 201, the transaction is committed and the store has
    gained exactly: one orders row, numbered by the response's orderId,
    with status pending, payment_status pending and the request's total;
    one order_items row per requested line, in the order of the request,
    each with the line's own menu item, quantity and price (the menu_items
    table plays no part and is unchanged); and one payments row for the
    order, with status pending and the request's total as amount. *)
Theorem successful_placement_rows isEmail b w resp w' :
  post_api_orders isEmail b w = (resp, w') ->
  status resp = 201 ->
  txn w' = None /\ last (log w') = Some EvCommit /\
  exists orderId its total new_order new_items new_payment,
    body resp = CreatedBody "Order created successfully" orderId /\
    items b = Some its /\ total_amount b = Some total /\
    orders (db w') = orders (db w) ++ [new_order] /\
    ord_id new_order = orderId /\ ord_status new_order = pending /\
    ord_payment_status new_order = pay_pending /\
    ord_total_amount new_order = total /\
    order_items (db w') = order_items (db w) ++ new_items /\
    length new_items = length its /\
    Forall2 (fun row l =>
               oi_order_id row = orderId /\
               oi_menu_item_id row = menu_item_id l /\
               oi_quantity row = quantity l /\ oi_price row = price l)
            new_items its /\
    payments (db w') = payments (db w) ++ [new_payment] /\
    pay_order_id new_payment = orderId /\ pay_status new_payment = pay_pending /\
    pay_amount new_payment = total /\
    menu_items (db w') = menu_items (db w).
Proof.
  intros H Hst.
  destruct (created_committed _ _ _ _ _ H Hst) as [Ht Hlast].
  split; [exact Ht|]. split; [exact Hlast|].
  apply post_api_orders_outcome in H
    as [(_ & -> & _) | [(_ & (e & ->) & _) | (_ & orderId & -> & Hp & _)]];
    try discriminate Hst.
  destruct Hp as (n & p & total & m & its & Hn & Hphone & Htot & Hm & Hits & Hid
                  & Hmenu & Hmap & Hord & Hoi & Hded & Hpay).
  exists orderId, its, total,
    (order_row orderId n p (customer_email b) total (Some m)),
    (map (order_item_row orderId) its), (payment_row orderId total m).
  simpl. repeat split; auto.
  - now rewrite length_map.
  - clear. induction its; simpl; constructor; auto.
Qed.

Lemma successful_placement_rows_witness :
  status (post_api_orders simple_isEmail sample_body later_world).1 = 201 /\
  txn (post_api_orders simple_isEmail sample_body later_world).2 = None /\
  last (log (post_api_orders simple_isEmail sample_body later_world).2)
    = Some EvCommit /\
  exists orderId its total new_order new_items new_payment,
    body (post_api_orders simple_isEmail sample_body later_world).1
      = CreatedBody "Order created successfully" orderId /\
    items sample_body = Some its /\ total_amount sample_body = Some total /\
    orders (db (post_api_orders simple_isEmail sample_body later_world).2)
      = orders (db later_world) ++ [new_order] /\
    ord_id new_order = orderId /\ ord_status new_order = pending /\
    ord_payment_status new_order = pay_pending /\
    ord_total_amount new_order = total /\
    order_items (db (post_api_orders simple_isEmail sample_body later_world).2)
      = order_items (db later_world) ++ new_items /\
    length new_items = length its /\
    Forall2 (fun row l =>
               oi_order_id row = orderId /\
               oi_menu_item_id row = menu_item_id l /\
               oi_quantity row = quantity l /\ oi_price row = price l)
            new_items its /\
    payments (db (post_api_orders simple_isEmail sample_body later_world).2)
      = payments (db later_world) ++ [new_payment] /\
    pay_order_id new_payment = orderId /\ pay_status new_payment = pay_pending /\
    pay_amount new_payment = total /\
    menu_items (db (post_api_orders simple_isEmail sample_body later_world).2)
      = menu_items (db later_world).
Proof.
  split; [vm_compute; reflexivity|].
  apply (successful_placement_rows simple_isEmail sample_body later_world
           (post_api_orders simple_isEmail sample_body later_world).1
           (post_api_orders simple_isEmail sample_body later_world).2
           (surjective_pairing _)).
  vm_compute. reflexivity.
Defined.

(** X2. A request that names no payment method, run with no other
    request between its calls, is never answered 201, and the tables are
    left as they were: the payments row needs one ([payment_method
    VARCHAR(50) NOT NULL]) although no validator asks for it. *)
Theorem placement_needs_payment_method isEmail b w resp w' :
  post_api_orders isEmail b w = (resp, w') ->
  payment_method b = None ->
  status resp <> 201 /\ db w' = db w.
Proof.
  intros H Hnone.
  apply post_api_orders_outcome in H
    as [(_ & -> & ->) | [(_ & (e & ->) & Hdb) | (_ & orderId & _ & Hp & _)]].
  - split; [discriminate|reflexivity].
  - split; [discriminate|assumption].
  - destruct Hp as (_ & _ & _ & m & _ & _ & _ & _ & Hm & _). congruence.
Qed.

Lemma placement_needs_payment_method_witness :
  status (post_api_orders simple_isEmail
            {| customer_name := Some "A"; customer_phone := Some "123";
               customer_email := None;
               items := Some [ {| menu_item_id := 1; quantity := 2;
                                  price := 25000 |} ];
               total_amount := Some 50000; payment_method := None |}
            sample_world).1 <> 201 /\
  db (post_api_orders simple_isEmail
        {| customer_name := Some "A"; customer_phone := Some "123";
           customer_email := None;
           items := Some [ {| menu_item_id := 1; quantity := 2;
                              price := 25000 |} ];
           total_amount := Some 50000; payment_method := None |}
        sample_world).2 = db sample_world.
Proof.
  apply (placement_needs_payment_method simple_isEmail _ sample_world _ _
           (surjective_pairing _)).
  reflexivity.
Defined.

Lemma unknown_dish_not_created isEmail b w resp w' its :
  post_api_orders isEmail b w = (resp, w') ->
  items b = Some its ->
  lines_on_menu (db w) its = false ->
  status resp <> 201.
Proof.
  intros H Hits Hmenu Hst.
  destruct (created_resolved _ _ _ _ _ H Hst)
    as (w1 & w2 & orderId & Hdb1 & _ & Et & _).
  apply try_block_resolved in Et as (_ & Hon).
  specialize (Hon its Hits). rewrite Hdb1 in Hon. congruence.
Qed.

(** X3. A request with a line whose menu item is not a row of
    [menu_items], run with no other request between its calls, is never
    answered 201, and the tables are left as they were: the items insert
    fails on its foreign key. *)
Theorem placement_needs_known_dishes isEmail b w resp w' its :
  post_api_orders isEmail b w = (resp, w') ->
  items b = Some its ->
  lines_on_menu (db w) its = false ->
  status resp <> 201 /\ db w' = db w.
Proof.
  intros H Hits Hmenu.
  assert (Hst : status resp <> 201)
    by (eapply unknown_dish_not_created; eassumption).
  split; [exact Hst|].
  apply post_api_orders_outcome in H
    as [(_ & _ & ->) | [(_ & _ & Hdb) | (_ & orderId & -> & _)]];
    [reflexivity | assumption | contradiction Hst; reflexivity].
Qed.

Lemma placement_needs_known_dishes_witness :
  lines_on_menu (db sample_world)
    [ {| menu_item_id := 9; quantity := 1; price := 100 |} ] = false /\
  status (post_api_orders simple_isEmail
            (set_items sample_body
               (Some [ {| menu_item_id := 9; quantity := 1; price := 100 |} ]))
            sample_world).1 <> 201 /\
  db (post_api_orders simple_isEmail
        (set_items sample_body
           (Some [ {| menu_item_id := 9; quantity := 1; price := 100 |} ]))
        sample_world).2 = db sample_world.
Proof.
  split; [reflexivity|].
  apply (placement_needs_known_dishes simple_isEmail _ sample_world _ _
           [ {| menu_item_id := 9; quantity := 1; price := 100 |} ]
           (surjective_pairing _)); reflexivity.
Defined.

(** X4. The handler leaves no transaction open: started on a connection
    with none, it ends with none, whether it answered 400, 500 or 201 and
    whatever the driver reported. *)
Theorem handler_closes_its_transaction isEmail b w :
  txn w = None -> txn (post_api_orders isEmail b w).2 = None.
Proof.
  intros Hw. unfold post_api_orders.
  destruct (validationResult isEmail b); [|exact Hw].
  destruct (db_beginTransaction w) as [[e|] w1] eqn:Eb.
  { simpl. apply db_beginTransaction_failed in Eb. congruence. }
  destruct (try_block b w1) as [[orderId|message] w2];
    [|simpl; apply db_rollback_txn].
  destruct (db_commit w2) as [[e|] w3] eqn:Ec; simpl.
  - apply db_rollback_txn.
  - apply db_commit_counter in Ec as (_ & Ht). now apply Ht.
Qed.

Lemma handler_closes_its_transaction_witness :
  txn flour_short_world = None /\
  txn (post_api_orders simple_isEmail sample_body flour_short_world).2 = None.
Proof.
  split; [reflexivity|].
  apply (handler_closes_its_transaction simple_isEmail sample_body
           flour_short_world).
  reflexivity.
Defined.

(** X5. Nothing is deduplicated: two placements answered 201 one after
    the other, be it the same payload twice, leave two orders rows with
    consecutive numbers, and the responses carry these numbers. *)
Theorem placements_are_not_deduplicated isEmail b1 b2 w r1 w1 r2 w2 :
  post_api_orders isEmail b1 w = (r1, w1) ->
  post_api_orders isEmail b2 w1 = (r2, w2) ->
  status r1 = 201 -> status r2 = 201 ->
  exists orderId o1 o2,
    body r1 = CreatedBody "Order created successfully" orderId /\
    body r2 = CreatedBody "Order created successfully" (orderId + 1) /\
    orders (db w2) = orders (db w) ++ [o1; o2] /\
    ord_id o1 = orderId /\ ord_id o2 = orderId + 1.
Proof.
  intros H1 H2 Hs1 Hs2.
  destruct (created_resolved _ _ _ _ _ H1 Hs1)
    as (wa & wb & id1 & _ & Haia & Eta & Hb1 & _ & Haib).
  apply try_block_resolved in Eta as (Hcount1 & _).
  destruct (created_resolved _ _ _ _ _ H2 Hs2)
    as (wc & wd & id2 & _ & _ & _ & Hb2 & _).
  apply post_api_orders_outcome in H1
    as [(_ & -> & _) | [(_ & (e & ->) & _) | (_ & id1' & -> & Hp1 & _)]];
    try discriminate Hs1.
  apply post_api_orders_outcome in H2
    as [(_ & -> & _) | [(_ & (e & ->) & _) | (_ & id2' & -> & Hp2 & _)]];
    try discriminate Hs2.
  simpl in Hb1, Hb2. injection Hb1 as <-. injection Hb2 as <-.
  destruct Hp1 as (n1 & p1 & t1 & m1 & l1 & _ & _ & _ & _ & _ & Hid1 & _ & _
                   & Hord1 & _).
  destruct Hp2 as (n2 & p2 & t2 & m2 & l2 & _ & _ & _ & _ & _ & Hid2 & _ & _
                   & Hord2 & _).
  assert (Hnext : id2' = id1' + 1) by lia.
  exists id1', (order_row id1' n1 p1 (customer_email b1) t1 (Some m1)),
    (order_row id2' n2 p2 (customer_email b2) t2 (Some m2)).
  rewrite <- Hnext. repeat split; auto.
  rewrite Hord2, Hord1, <- app_assoc. reflexivity.
Qed.

Lemma placements_are_not_deduplicated_witness :
  exists orderId o1 o2,
    body (post_api_orders simple_isEmail sample_body sample_world).1
      = CreatedBody "Order created successfully" orderId /\
    body (post_api_orders simple_isEmail sample_body
            (post_api_orders simple_isEmail sample_body sample_world).2).1
      = CreatedBody "Order created successfully" (orderId + 1) /\
    orders (db (post_api_orders simple_isEmail sample_body
                  (post_api_orders simple_isEmail sample_body sample_world).2).2)
      = orders (db sample_world) ++ [o1; o2] /\
    ord_id o1 = orderId /\ ord_id o2 = orderId + 1.
Proof.
  apply (placements_are_not_deduplicated simple_isEmail sample_body sample_body
           sample_world _ _ _ _ (surjective_pairing _) (surjective_pairing _));
    reflexivity.
Defined.

(** ** Mails and stock of a placement *)

(** [later_world] holds what the salad order leaves in the sample store,
    and one dish more. *)
Lemma later_world_reached :
  (post_api_orders simple_isEmail salad_body sample_world).1
    = {| status := 201; body := CreatedBody "Order created successfully" 1 |} /\
  db later_world
    = set_menu_items
        (db (post_api_orders simple_isEmail salad_body sample_world).2)
        (menu_items (db later_world)) /\
  orders_auto_increment later_world
    = orders_auto_increment
        (post_api_orders simple_isEmail salad_body sample_world).2.
Proof. vm_compute. repeat split; reflexivity. Qed.

Lemma mails_in_app l1 l2 : mails_in (l1 ++ l2) = mails_in l1 ++ mails_in l2.
Proof. unfold mails_in. apply omap_app. Qed.

Lemma mails_in_queries qs : mails_in (map EvQuery qs) = [].
Proof. induction qs as [|q rest IH]; [reflexivity|exact IH]. Qed.

Lemma mails_in_mails_of b orderId its :
  mails_in (mails_of b orderId its) =
    match customer_email b with
    | Some to =>
        if truthy (Some to) then [confirmation_mail b orderId its to] else []
    | None => []
    end.
Proof.
  unfold mails_of. destruct (customer_email b) as [to|]; [|reflexivity].
  destruct (truthy (Some to)); reflexivity.
Qed.

(** X6. One run of the handler hands at most one mail to the
    transporter; a mail goes to the request's [customer_email], which is
    then a non-empty string, and carries the response's order number when
    the answer is 201. A request without [customer_email], a request
    turned down by the validators and a run whose [try] block is cut short
    send none. *)
Theorem at_most_one_mail_to_the_customer isEmail b w :
  exists ms,
    mails_in (log (post_api_orders isEmail b w).2) = mails_in (log w) ++ ms /\
    (ms = [] \/
     exists to orderId its,
       ms = [confirmation_mail b orderId its to] /\
       customer_email b = Some to /\ to <> ""%string /\
       items b = Some its /\
       (status (post_api_orders isEmail b w).1 = 201 ->
        body (post_api_orders isEmail b w).1
          = CreatedBody "Order created successfully" orderId)) /\
    (customer_email b = None -> ms = []) /\
    (validationResult isEmail b <> [] -> ms = []).
Proof.
  unfold post_api_orders.
  destruct (validationResult isEmail b) as [|e es] eqn:Ev.
  2:{ exists []. simpl. rewrite app_nil_r. auto. }
  destruct (db_beginTransaction w) as [o w1] eqn:Eb.
  apply db_beginTransaction_inv in Eb as (_ & Hlog1 & _ & _).
  assert (Hm1 : mails_in (log w1) = mails_in (log w))
    by (rewrite Hlog1, mails_in_app; simpl; apply app_nil_r).
  destruct o as [err|].
  { exists []. simpl. rewrite Hm1, app_nil_r. repeat split; auto. }
  destruct (try_block b w1) as [[orderId|message] w2] eqn:Et.
  - pose proof (try_block_inv _ _ _ _ Et) as (_ & _ & Hplaced & qs & Hlog2).
    destruct Hplaced as (_ & _ & _ & _ & its & _ & _ & _ & _ & Hits & _).
    rewrite Hits in Hlog2. simpl in Hlog2.
    destruct (db_commit w2) as [o w3] eqn:Ec.
    apply db_commit_inv in Ec as (_ & Hlog3 & _).
    exists (mails_in (mails_of b orderId its)).
    assert (Hlog : mails_in (log w3 ++ [EvRollback])
                   = mails_in (log w) ++ mails_in (mails_of b orderId its)
                   /\ mails_in (log w3)
                      = mails_in (log w) ++ mails_in (mails_of b orderId its)).
    { rewrite mails_in_app, Hlog3, mails_in_app, Hlog2, !mails_in_app,
        mails_in_queries, Hm1. simpl. rewrite !app_nil_r. auto. }
    destruct Hlog as [Hlr Hl].
    split; [destruct o; simpl; rewrite ?db_rollback_log; assumption|].
    rewrite mails_in_mails_of.
    split; [|split; [intros ->; reflexivity | intros Hne; contradiction]].
    destruct (customer_email b) as [to|] eqn:Eto; [|now left].
    destruct (truthy (Some to)) eqn:Etr; [|now left].
    right. exists to, orderId, its. repeat split; auto.
    + intros ->. discriminate Etr.
    + destruct o; simpl; [discriminate|reflexivity].
  - pose proof (try_block_inv _ _ _ _ Et) as (_ & _ & qs & Hlog2).
    exists []. simpl.
    rewrite db_rollback_log, mails_in_app, Hlog2, mails_in_app,
      mails_in_queries, Hm1. simpl. rewrite !app_nil_r.
    repeat split; auto.
Qed.

Lemma conditional_decrement_absent inv id amount inv' k :
  conditional_decrement inv id amount = Some inv' ->
  inv !! k = None -> inv' !! k = None.
Proof.
  intros H Hk. apply conditional_decrement_inv in H
    as (it & q & Hid & _ & _ & ->).
  rewrite lookup_insert_ne; [assumption|]. intros ->. congruence.
Qed.

Lemma deduct_line_absent line mappings k : forall inv inv',
  deduct_line line mappings inv = Some inv' ->
  inv !! k = None -> inv' !! k = None.
Proof.
  induction mappings as [|m rest IH]; simpl; intros inv inv' H Hk.
  - now injection H as <-.
  - destruct (conditional_decrement inv _ _) as [inv1|] eqn:Ec; [|discriminate].
    eapply IH; [eassumption|]. eapply conditional_decrement_absent; eassumption.
Qed.

Lemma deduct_lines_absent table lines k : forall inv inv',
  deduct_lines table lines inv = Some inv' ->
  inv !! k = None -> inv' !! k = None.
Proof.
  induction lines as [|l rest IH]; simpl; intros inv inv' H Hk.
  - now injection H as <-.
  - destruct (deduct_line l _ inv) as [inv1|] eqn:El; [|discriminate].
    eapply IH; [eassumption|]. eapply deduct_line_absent; eassumption.
Qed.

(** X7. The rounding of the products does not reach the stored
    quantities. When a placement that runs with no other request between
    its calls is answered 201, and every product the loop computed is, as
    its statement carries it, within half a hundredth of the product of
    the two decimals, then every ingredient holds what it held before
    minus what the request asked of it: the sum, over the requested lines
    and their mappings onto the ingredient, of quantity_required x
    quantity. No inventory row appears or disappears. *)
Theorem placed_stock_is_stock_minus_demand isEmail b w resp w' its :
  post_api_orders isEmail b w = (resp, w') ->
  status resp = 201 ->
  items b = Some its ->
  products_carried (menu_inventory_mapping (db w)) its = true ->
  (forall id it, inventory (db w) !! id = Some it ->
     exists it',
       inventory (db w') !! id = Some it' /\
       inv_quantity it' =
         inv_quantity it - demand (menu_inventory_mapping (db w)) its id) /\
  (forall id, inventory (db w) !! id = None ->
     inventory (db w') !! id = None).
Proof.
  intros H Hst Hits Hc.
  apply post_api_orders_outcome in H
    as [(_ & -> & _) | [(_ & (e & ->) & _) | (_ & orderId & -> & Hp & _)]];
    try discriminate Hst.
  destruct Hp as (_ & _ & _ & _ & its' & _ & _ & _ & _ & Hits' & _ & _ & _ & _ & _
                  & Hded & _).
  rewrite Hits in Hits'. injection Hits' as <-. split.
  - intros id it Hid. eapply deduct_lines_demand; eassumption.
  - intros id Hid. eapply deduct_lines_absent; eassumption.
Qed.

Lemma placed_stock_is_stock_minus_demand_witness :
  status (post_api_orders simple_isEmail three_pizzas_body sample_world).1
    = 201 /\
  literal (times 20 3) = SqlDecimal 6000000000000001 (-16) /\
  demand sample_mapping
    [ {| menu_item_id := 1; quantity := 3; price := 25000 |} ] 1 = 60 /\
  (forall id it, inventory (db sample_world) !! id = Some it ->
     exists it',
       inventory (db (post_api_orders simple_isEmail three_pizzas_body
                                      sample_world).2) !! id = Some it' /\
       inv_quantity it' =
         inv_quantity it
         - demand (menu_inventory_mapping (db sample_world))
             [ {| menu_item_id := 1; quantity := 3; price := 25000 |} ] id) /\
  (forall id, inventory (db sample_world) !! id = None ->
     inventory (db (post_api_orders simple_isEmail three_pizzas_body
                                    sample_world).2) !! id = None).
Proof.
  split; [vm_compute; reflexivity|].
  split; [vm_compute; reflexivity|].
  split; [vm_compute; reflexivity|].
  apply (placed_stock_is_stock_minus_demand simple_isEmail three_pizzas_body
           sample_world _ _ _ (surjective_pairing _));
    vm_compute; reflexivity.
Defined.

(** * The other routes *)

(** ** The bearer token *)

Lemma split_spaces_word s : has_space s = false -> split_spaces s = [s].
Proof.
  induction s as [|c rest IH]; simpl; [reflexivity|].
  intros H. apply orb_false_elim in H as [Hc Hrest].
  rewrite Hc, (IH Hrest). reflexivity.
Qed.

Lemma split_spaces_app s u :
  has_space s = false ->
  split_spaces (s +:+ String space u) = s :: split_spaces u.
Proof.
  induction s as [|c rest IH]; simpl; intros H.
  - reflexivity.
  - apply orb_false_elim in H as [Hc Hrest]. rewrite Hc, (IH Hrest). reflexivity.
Qed.

Lemma append_space_nonempty s u : (s +:+ String space u =? "")%string = false.
Proof. destruct s; reflexivity. Qed.

Lemma append_empty s : s +:+ "" = s.
Proof.
  induction s as [|c rest IH]; [reflexivity|].
  change (String c rest +:+ "") with (String c (rest +:+ "")).
  now rewrite IH.
Qed.

(** X8. The token that [authenticateToken] verifies is the second piece
    of the Authorization header, split at single spaces; the first piece,
    the scheme, is not looked at, so [Bearer t], [Basic t] and [ t] with
    nothing before the space all present token [t], and what follows a
    further space is ignored. The middleware passes the user [jwt.verify]
    decodes from that piece and answers 403 when it decodes none. *)
Theorem token_is_second_piece verify scheme token tail :
  has_space scheme = false ->
  has_space token = false ->
  token <> ""%string ->
  tail = ""%string \/ (exists rest, tail = String space rest) ->
  authenticateToken verify (Some (scheme +:+ String space (token +:+ tail))) =
    match verify token with
    | Some user => inr user
    | None => inl (reply_error 403 "Invalid token")
    end.
Proof.
  intros Hs Ht Hne Htail. unfold authenticateToken, bearer_token.
  rewrite append_space_nonempty, split_spaces_app by assumption.
  assert (Hpieces : exists more, split_spaces (token +:+ tail) = token :: more).
  { destruct Htail as [-> | (rest & ->)].
    - exists []. rewrite append_empty. now apply split_spaces_word.
    - eexists. apply split_spaces_app. exact Ht. }
  destruct Hpieces as (more & ->). simpl.
  destruct (token =? "")%string eqn:E; [|reflexivity].
  apply String.eqb_eq in E. contradiction.
Qed.

Lemma token_is_second_piece_witness :
  has_space "Basic" = false /\ has_space "t-admin" = false /\
  authenticateToken sample_verify (Some "Basic t-admin extra") =
    match sample_verify "t-admin" with
    | Some user => inr user
    | None => inl (reply_error 403 "Invalid token")
    end.
Proof.
  split; [reflexivity|]. split; [reflexivity|].
  apply (token_is_second_piece sample_verify "Basic" "t-admin" " extra");
    [reflexivity | reflexivity | discriminate | right; eexists; reflexivity].
Defined.

(** X9. A request reaches [jwt.verify] only with a non-empty second
    piece: with no Authorization header, with a header that holds no
    space, with one that ends at its first space and with one whose first
    space is followed by another, [authenticateToken] answers 401
    'Access token required', whatever the verifier would accept. *)
Theorem no_second_piece_is_401 verify :
  authenticateToken verify None
    = inl (reply_error 401 "Access token required") /\
  (forall h, has_space h = false ->
     authenticateToken verify (Some h)
       = inl (reply_error 401 "Access token required")) /\
  (forall scheme, has_space scheme = false ->
     authenticateToken verify (Some (scheme +:+ String space ""))
       = inl (reply_error 401 "Access token required")) /\
  (forall scheme rest, has_space scheme = false ->
     authenticateToken verify
       (Some (scheme +:+ String space (String space rest)))
       = inl (reply_error 401 "Access token required")).
Proof.
  unfold authenticateToken, bearer_token. repeat split.
  - intros h Hh. destruct (h =? "")%string; [reflexivity|].
    rewrite split_spaces_word by assumption. reflexivity.
  - intros scheme Hs. rewrite append_space_nonempty, split_spaces_app by assumption.
    reflexivity.
  - intros scheme rest Hs.
    rewrite append_space_nonempty, split_spaces_app by assumption.
    reflexivity.
Qed.

(** ** Statements of the other routes *)

Lemma db_execute_inv s w o w' :
  db_execute s w = (o, w') ->
  txn w' = txn w /\ log w' = log w /\
  orders_auto_increment w' = orders_auto_increment w /\
  ((exists e, o = Some e /\ db w' = db w) \/
   (o = None /\ run_statement s (db w) = inr (db w'))).
Proof.
  unfold db_execute. intros H.
  destruct (next_fault_spec w) as (Hdb & Htx & Hai & Hlog & _).
  destruct (next_fault w) as [f w1]. simpl in *.
  destruct f as [err|].
  - inversion H; subst. repeat split; auto. left. eauto.
  - rewrite Hdb in H.
    destruct (run_statement s (db w)) as [err|t] eqn:Er;
      inversion H; subst; simpl; repeat split; auto.
    left. eauto.
Qed.

Lemma db_execute_healthy s w :
  faults w = [] ->
  db_execute s w =
    match run_statement s (db w) with
    | inl err => (Some err, w)
    | inr t => (None, set_db w t)
    end.
Proof. intros Hf. unfold db_execute, next_fault. rewrite Hf. reflexivity. Qed.

Lemma set_orders_same t : set_orders t (orders t) = t.
Proof. destruct t; reflexivity. Qed.

Lemma set_payments_same t : set_payments t (payments t) = t.
Proof. destruct t; reflexivity. Qed.

(** ** Who gets through *)

Lemma restricted_route_refuses verify authorization handler w :
  staff_token verify authorization = false ->
  (authenticated verify authorization
     (restricted admin_and_staff handler) w).2 = w /\
  (code (authenticated verify authorization
           (restricted admin_and_staff handler) w).1 = 401 \/
   code (authenticated verify authorization
           (restricted admin_and_staff handler) w).1 = 403).
Proof.
  unfold staff_token, authenticated, restricted, restrictTo. intros H.
  destruct (authenticateToken verify authorization) as [r|user] eqn:E.
  - split; [reflexivity|]. unfold authenticateToken in E.
    destruct (bearer_token authorization) as [token|]; [|inversion E; auto].
    destruct (token =? "")%string; [inversion E; auto|].
    destruct (verify token); inversion E; auto.
  - destruct (user_role user) as [r|]; [|auto].
    rewrite H. auto.
Qed.

Lemma staff_route_runs verify authorization handler w :
  staff_token verify authorization = true ->
  authenticated verify authorization (restricted admin_and_staff handler) w
  = handler w.
Proof.
  unfold staff_token, authenticated, restricted, restrictTo. intros H.
  destruct (authenticateToken verify authorization) as [r|user]; [discriminate|].
  destruct (user_role user) as [r|]; [|discriminate]. now rewrite H.
Qed.

(** X10. The routes that change an order's status, delete a menu item
    and delete an inventory item do nothing for a caller who is not staff:
    unless the header carries a token that verifies to a user whose role
    is admin or staff, the answer is 401 or 403 and the world is left
    exactly as it was, whatever the rest of the request says. *)
Theorem staff_routes_refuse_others verify authorization id status w :
  staff_token verify authorization = false ->
  ((put_api_orders_status verify authorization id status w).2 = w /\
   (code (put_api_orders_status verify authorization id status w).1 = 401 \/
    code (put_api_orders_status verify authorization id status w).1 = 403)) /\
  ((delete_api_menu verify authorization id w).2 = w /\
   (code (delete_api_menu verify authorization id w).1 = 401 \/
    code (delete_api_menu verify authorization id w).1 = 403)) /\
  ((delete_api_inventory verify authorization id w).2 = w /\
   (code (delete_api_inventory verify authorization id w).1 = 401 \/
    code (delete_api_inventory verify authorization id w).1 = 403)).
Proof.
  intros H. repeat split; try (apply restricted_route_refuses; exact H).
  all: apply (restricted_route_refuses verify authorization _ w H).
Qed.

Lemma staff_routes_refuse_others_witness :
  staff_token sample_verify (Some "Bearer t-customer") = false /\
  (put_api_orders_status sample_verify (Some "Bearer t-customer") 1
     (Some "delivered") sample_world).2 = sample_world /\
  code (put_api_orders_status sample_verify (Some "Bearer t-customer") 1
          (Some "delivered") sample_world).1 = 403.
Proof.
  split; [reflexivity|].
  destruct (staff_routes_refuse_others sample_verify (Some "Bearer t-customer")
              1 (Some "delivered") sample_world eq_refl) as ((Hw & _) & _).
  split; [exact Hw | reflexivity].
Defined.

(** ** Order status *)



Lemma map_unmatched {A} (f : A -> A) (matches : A -> bool) (l : list A) :
  Forall (fun a => matches a = false) l ->
  map (fun a => if matches a then f a else a) l = l.
Proof.
  induction 1 as [|a rest Ha _ IH]; simpl; [reflexivity|].
  now rewrite Ha, IH.
Qed.

(** X12. An order number that no order carries is no error: for staff on
    a healthy connection the answer is still 200 'Order status updated
    successfully', and the tables are what they were. *)
Theorem unknown_order_is_updated_successfully verify authorization id status
    st w :
  staff_token verify authorization = true ->
  faults w = [] ->
  order_status_of status = Some st ->
  Forall (fun o => ord_id o <> id) (orders (db w)) ->
  (put_api_orders_status verify authorization id status w).1
    = reply_message "Order status updated successfully" /\
  db (put_api_orders_status verify authorization id status w).2 = db w.
Proof.
  intros Hstaff Hf Hst Hnone. unfold put_api_orders_status.
  rewrite staff_route_runs by assumption.
  unfold put_order_status. rewrite Hst, db_execute_healthy by assumption.
  simpl. split; [reflexivity|].
  rewrite (map_unmatched (fun o => set_status o st) (fun o => ord_id o =? id)).
  - apply set_orders_same.
  - eapply Forall_impl; [exact Hnone|]. intros o Ho. now apply Z.eqb_neq.
Qed.

Lemma unknown_order_is_updated_successfully_witness :
  staff_token sample_verify (Some "Bearer t-admin") = true /\
  (put_api_orders_status sample_verify (Some "Bearer t-admin") 77
     (Some "ready") sample_world).1
    = reply_message "Order status updated successfully" /\
  db (put_api_orders_status sample_verify (Some "Bearer t-admin") 77
        (Some "ready") sample_world).2 = db sample_world.
Proof.
  split; [reflexivity|].
  apply (unknown_order_is_updated_successfully sample_verify
           (Some "Bearer t-admin") 77 (Some "ready") ready sample_world);
    try reflexivity.
  constructor.
Defined.

(** ** Deleting dishes and ingredients *)

Lemma delete_menu_item_inv id w r w' :
  delete_menu_item id w = (r, w') ->
  (code r = 500 /\ db w' = db w) \/
  (code r = 200 /\
   run_statement (DeleteMenuItem id) (db w) = inr (db w')).
Proof.
  unfold delete_menu_item. intros H.
  destruct (db_execute (DeleteMenuItem id) w) as [o w1] eqn:E.
  apply db_execute_inv in E as (_ & _ & _ & [(e & -> & Hdb) | (-> & Hrun)]);
    inversion H; subst; auto.
Qed.

Lemma ordered_line_is_referenced t orderId its l rows :
  l ∈ its ->
  order_items t = rows ++ map (order_item_row orderId) its ->
  menu_item_referenced t (menu_item_id l) = true.
Proof.
  intros Hl Hrows. unfold menu_item_referenced. rewrite Hrows.
  apply orb_true_intro. left. rewrite existsb_app. apply orb_true_intro. right.
  apply existsb_exists. exists (order_item_row orderId l). split.
  - apply in_map. now apply list_elem_of_In.
  - simpl. apply Z.eqb_refl.
Qed.

Lemma line_on_menu t its l :
  lines_on_menu t its = true -> l ∈ its ->
  is_Some (menu_items t !! menu_item_id l).
Proof.
  unfold lines_on_menu. rewrite forallb_forall. intros H Hl.
  specialize (H l (proj1 (list_elem_of_In _ _) Hl)).
  unfold menu_item_exists in H. now apply bool_decide_eq_true in H.
Qed.

(** X13. A dish that has been ordered stays on the menu: run on the store
    that a placement answered 201 (with no other request between its
    calls) has left, the handler of [DELETE /api/menu/:id] for the menu
    item of any of its lines answers 500 and changes nothing, because the
    new order_items row refers to it. *)
Theorem ordered_dish_cannot_be_deleted isEmail b w resp w1 its l r w2 :
  post_api_orders isEmail b w = (resp, w1) ->
  status resp = 201 ->
  items b = Some its ->
  l ∈ its ->
  delete_menu_item (menu_item_id l) w1 = (r, w2) ->
  r = reply_error 500 "Failed to delete menu item" /\ db w2 = db w1.
Proof.
  intros H Hst Hits Hl Hdel.
  destruct (created_resolved _ _ _ _ _ H Hst)
    as (wa & wb & orderId & Hdba & _ & Et & _).
  apply try_block_resolved in Et as (_ & Hon). specialize (Hon its Hits).
  rewrite Hdba in Hon.
  apply post_api_orders_outcome in H
    as [(_ & -> & _) | [(_ & (e & ->) & _) | (_ & id' & -> & Hp & _)]];
    try discriminate Hst.
  destruct Hp as (_ & _ & _ & _ & its' & _ & _ & _ & _ & Hits' & _ & Hmenu & _
                  & _ & Hoi & _).
  rewrite Hits in Hits'. injection Hits' as <-.
  assert (Href : menu_item_referenced (db w1) (menu_item_id l) = true)
    by (eapply ordered_line_is_referenced; eassumption).
  assert (Hrow : is_Some (menu_items (db w1) !! menu_item_id l))
    by (rewrite Hmenu; eapply line_on_menu; eassumption).
  unfold delete_menu_item in Hdel.
  destruct (db_execute (DeleteMenuItem (menu_item_id l)) w1) as [o w3] eqn:E.
  apply db_execute_inv in E as (_ & _ & _ & [(e & -> & Hdb) | (-> & Hrun)]).
  - inversion Hdel; subst. auto.
  - simpl in Hrun. destruct Hrow as [mi Hmi]. rewrite Hmi, Href in Hrun.
    discriminate.
Qed.

Lemma ordered_dish_cannot_be_deleted_witness :
  status (post_api_orders simple_isEmail sample_body sample_world).1 = 201 /\
  (delete_menu_item 1
     (post_api_orders simple_isEmail sample_body sample_world).2).1
    = reply_error 500 "Failed to delete menu item" /\
  db (delete_menu_item 1
        (post_api_orders simple_isEmail sample_body sample_world).2).2
    = db (post_api_orders simple_isEmail sample_body sample_world).2.
Proof.
  split; [reflexivity|].
  apply (ordered_dish_cannot_be_deleted simple_isEmail sample_body sample_world
           _ _ [ {| menu_item_id := 1; quantity := 2; price := 25000 |} ]
           {| menu_item_id := 1; quantity := 2; price := 25000 |} _ _
           (surjective_pairing _));
    [reflexivity | reflexivity | apply list_elem_of_here | apply surjective_pairing].
Defined.

Lemma deleted_dish_is_gone id w r w' :
  delete_menu_item id w = (r, w') ->
  code r = 200 ->
  menu_items (db w') !! id = None.
Proof.
  intros H Hc. apply delete_menu_item_inv in H as [(H5 & _) | (_ & Hrun)];
    [rewrite H5 in Hc; discriminate|].
  simpl in Hrun. destruct (menu_items (db w) !! id) eqn:E.
  - destruct (menu_item_referenced (db w) id); [discriminate|].
    injection Hrun as <-. simpl. apply lookup_delete_eq.
  - injection Hrun as <-. exact E.
Qed.

(** X14. A deleted dish cannot be ordered: run on the store that the
    handler of [DELETE /api/menu/:id] has left with an answer of 200, a
    placement with a line for that menu item (and no other request
    between its calls) is never answered 201 and stores nothing. *)
Theorem deleted_dish_cannot_be_ordered isEmail id w r w1 b its l resp w2 :
  delete_menu_item id w = (r, w1) ->
  code r = 200 ->
  items b = Some its ->
  l ∈ its ->
  menu_item_id l = id ->
  post_api_orders isEmail b w1 = (resp, w2) ->
  status resp <> 201 /\ db w2 = db w1.
Proof.
  intros Hdel Hc Hits Hl Hid H.
  pose proof (deleted_dish_is_gone _ _ _ _ Hdel Hc) as Hgone.
  assert (Hoff : lines_on_menu (db w1) its = false).
  { destruct (lines_on_menu (db w1) its) eqn:E; [|reflexivity].
    destruct (line_on_menu _ _ _ E Hl) as [mi Hmi]. congruence. }
  assert (Hst : status resp <> 201)
    by (eapply unknown_dish_not_created; eassumption).
  split; [exact Hst|].
  apply post_api_orders_outcome in H
    as [(_ & _ & ->) | [(_ & _ & Hdb) | (_ & orderId & -> & _)]];
    [reflexivity | assumption | contradiction Hst; reflexivity].
Qed.

Lemma deleted_dish_cannot_be_ordered_witness :
  code (delete_menu_item 5 later_world).1 = 200 /\
  status (post_api_orders simple_isEmail
            (set_items sample_body
               (Some [ {| menu_item_id := 5; quantity := 1; price := 9000 |} ]))
            (delete_menu_item 5 later_world).2).1 <> 201 /\
  db (post_api_orders simple_isEmail
        (set_items sample_body
           (Some [ {| menu_item_id := 5; quantity := 1; price := 9000 |} ]))
        (delete_menu_item 5 later_world).2).2
    = db (delete_menu_item 5 later_world).2.
Proof.
  split; [vm_compute; reflexivity|].
  apply (deleted_dish_cannot_be_ordered simple_isEmail 5 later_world _ _
           (set_items sample_body
              (Some [ {| menu_item_id := 5; quantity := 1; price := 9000 |} ]))
           [ {| menu_item_id := 5; quantity := 1; price := 9000 |} ]
           {| menu_item_id := 5; quantity := 1; price := 9000 |} _ _
           (surjective_pairing _));
    [vm_compute; reflexivity | reflexivity | apply list_elem_of_here
    | reflexivity | apply surjective_pairing].
Defined.



(** ** Processing a payment *)






(** ** What the rows of a placed order carry *)

(** X18. When a placement that runs with no other request between its
    calls is answered 201, the new orders row stores the customer's name,
    phone, e-mail and payment method exactly as the request gave them, and
    the new payments row repeats the order's number, total and payment
    method. *)
Theorem placed_rows_carry_the_request isEmail b w resp w' :
  post_api_orders isEmail b w = (resp, w') ->
  status resp = 201 ->
  exists o p,
    orders (db w') = orders (db w) ++ [o] /\
    payments (db w') = payments (db w) ++ [p] /\
    customer_name b = Some (ord_customer_name o) /\
    customer_phone b = Some (ord_customer_phone o) /\
    customer_email b = ord_customer_email o /\
    payment_method b = ord_payment_method o /\
    pay_order_id p = ord_id o /\
    pay_amount p = ord_total_amount o /\
    ord_payment_method o = Some (pay_payment_method p) /\
    pay_transaction_id p = None.
Proof.
  intros H Hst.
  apply post_api_orders_outcome in H
    as [(_ & -> & _) | [(_ & (e & ->) & _) | (_ & orderId & -> & Hp & _)]];
    try discriminate Hst.
  destruct Hp as (n & ph & total & m & its & Hn & Hph & Htot & Hm & Hits & Hid
                  & _ & _ & Hord & _ & _ & Hpay).
  exists (order_row orderId n ph (customer_email b) total (Some m)),
    (payment_row orderId total m).
  simpl. repeat split; auto.
Qed.

Lemma placed_rows_carry_the_request_witness :
  status (post_api_orders simple_isEmail sample_body sample_world).1 = 201 /\
  exists o p,
    orders (db (post_api_orders simple_isEmail sample_body sample_world).2)
      = orders (db sample_world) ++ [o] /\
    payments (db (post_api_orders simple_isEmail sample_body sample_world).2)
      = payments (db sample_world) ++ [p] /\
    customer_name sample_body = Some (ord_customer_name o) /\
    customer_phone sample_body = Some (ord_customer_phone o) /\
    customer_email sample_body = ord_customer_email o /\
    payment_method sample_body = ord_payment_method o /\
    pay_order_id p = ord_id o /\
    pay_amount p = ord_total_amount o /\
    ord_payment_method o = Some (pay_payment_method p) /\
    pay_transaction_id p = None.
Proof.
  split; [reflexivity|].
  apply (placed_rows_carry_the_request simple_isEmail sample_body sample_world
           _ _ (surjective_pairing _)).
  reflexivity.
Defined.
